(** * Stack Up ([sup]) configuration model: [supfile.go]

    A shallow embedding of the Supfile loader: host-string parsing
    ([NewHost]), the order-preserving named collections, the environment
    chain ([EnvList]), the version compatibility switch of [NewSupfile]
    and the inventory expander ([ParseInventory]).

    Go strings are byte strings and are modelled by [string] (one [ascii]
    per byte); Go [int] values are modelled by [Z].  Everything the code
    obtains from outside the process (the YAML decoder, the current OS
    user, the shell) is a variable of the section that uses it. *)

From Stdlib Require Import String Ascii ZArith List Lia DecimalString.
From stdpp Require Import base option gmap strings list fin_maps.

Local Open Scope string_scope.

(** ** Errors and results *)

(** The error values that flow through this file.  [ErrMustUpdate] and
    [ErrUnsupportedSupfileVersion] are the two struct types declared in
    [supfile.go]; the other constructors stand for the error values made
    by [fmt.Errorf], [net.SplitHostPort], [errors.Wrapf] and by the
    operating system or an external decoder. *)
Inductive error : Type :=
| ErrMustUpdate (Msg : string)
| ErrUnsupportedSupfileVersion (Msg : string)
| ErrorString (msg : string)
| AddrError (Err Addr : string)
| Wrapf (cause : error) (msg : string)
| OSError (msg : string).

(** A Go call either returns a value, returns an error, or panics. *)
Inductive result (A : Type) : Type :=
| Ok (a : A)
| Err (e : error)
| Panic (msg : string).
Arguments Ok {A} a.
Arguments Err {A} e.
Arguments Panic {A} msg.

#[global] Instance result_ret : MRet result := fun A a => Ok a.
#[global] Instance result_bind : MBind result := fun A B f r =>
  match r with
  | Ok a => f a
  | Err e => Err e
  | Panic msg => Panic msg
  end.

(** [ErrMustUpdate.Error] and [ErrUnsupportedSupfileVersion.Error], and
    the texts of the other error values. *)
Fixpoint Error (e : error) : string :=
  match e with
  | ErrMustUpdate Msg =>
      Msg +:+ String "010" (String "010"
        "Please update sup by `go get -u github.com/pressly/sup/cmd/sup`")
  | ErrUnsupportedSupfileVersion Msg =>
      Msg +:+ String "010" (String "010"
        "Check your Supfile version (available latest version: v0.5)")
  | ErrorString msg => msg
  | AddrError why addr => "address " +:+ addr +:+ ": " +:+ why
  | Wrapf cause msg => msg +:+ ": " +:+ Error cause
  | OSError msg => msg
  end.

(** ** Byte-string primitives of the Go runtime and standard library *)

Definition len (s : string) : Z := Z.of_nat (String.length s).

Fixpoint str_drop (n : nat) (s : string) : string :=
  match n, s with
  | O, _ => s
  | S _, EmptyString => EmptyString
  | S n', String _ s' => str_drop n' s'
  end.

Fixpoint str_take (n : nat) (s : string) : string :=
  match n, s with
  | O, _ => EmptyString
  | S _, EmptyString => EmptyString
  | S n', String a s' => String a (str_take n' s')
  end.

(** [s[lo:hi]], [s[:hi]] and [s[lo:]].  Every slice expression of
    [supfile.go] and of [net.SplitHostPort] is guarded so that its bounds
    are within the string, where Go would otherwise panic. *)
Definition slice (s : string) (lo hi : Z) : string :=
  str_take (Z.to_nat (hi - lo)) (str_drop (Z.to_nat lo) s).
Definition slice_to (s : string) (hi : Z) : string := slice s 0 hi.
Definition slice_from (s : string) (lo : Z) : string := str_drop (Z.to_nat lo) s.

(** [s[i]], read only at an index below [len s]. *)
Definition byte_at (s : string) (i : Z) : ascii :=
  match str_drop (Z.to_nat i) s with
  | String a _ => a
  | EmptyString => "000"%char
  end.

Fixpoint HasPrefix (s prefix : string) {struct prefix} : bool :=
  match prefix with
  | EmptyString => true
  | String b prefix' =>
      match s with
      | EmptyString => false
      | String a s' => Ascii.eqb a b && HasPrefix s' prefix'
      end
  end.

(** [strings.Contains]. *)
Fixpoint strings_Contains (s substr : string) : bool :=
  HasPrefix s substr ||
  match s with
  | EmptyString => false
  | String _ s' => strings_Contains s' substr
  end.

(** [strings.LastIndex]: the index of the last occurrence of [substr] in
    [s], or -1.  [off] is the offset of the scanned suffix in [s]. *)
Fixpoint LastIndex_at (off : Z) (s substr : string) : Z :=
  match s with
  | EmptyString => if HasPrefix s substr then off else (-1)%Z
  | String _ s' =>
      let later := LastIndex_at (off + 1) s' substr in
      if (0 <=? later)%Z then later
      else if HasPrefix s substr then off else (-1)%Z
  end.
Definition strings_LastIndex (s substr : string) : Z := LastIndex_at 0 s substr.

(** [bytealg.IndexByteString] and [bytealg.LastIndexByteString]. *)
Fixpoint IndexByte_at (off : Z) (s : string) (c : ascii) : Z :=
  match s with
  | EmptyString => (-1)%Z
  | String a s' => if Ascii.eqb a c then off else IndexByte_at (off + 1) s' c
  end.
Definition IndexByteString (s : string) (c : ascii) : Z := IndexByte_at 0 s c.

Fixpoint LastIndexByte_at (off : Z) (s : string) (c : ascii) : Z :=
  match s with
  | EmptyString => (-1)%Z
  | String a s' =>
      let later := LastIndexByte_at (off + 1) s' c in
      if (0 <=? later)%Z then later
      else if Ascii.eqb a c then off else (-1)%Z
  end.
Definition LastIndexByteString (s : string) (c : ascii) : Z :=
  LastIndexByte_at 0 s c.

(** [net.SplitHostPort] of the Go standard library, which [NewHost] calls
    for the strict [host:port] form; [addrErr] is its local helper. *)
Definition addrErr {A : Type} (addr why : string) : result A :=
  Err (AddrError why addr).

Definition net_SplitHostPort (hostport : string) : result (string * string) :=
  let missingPort := "missing port in address" in
  let tooManyColons := "too many colons in address" in
  let i := LastIndexByteString hostport ":" in
  if (i <? 0)%Z then addrErr hostport missingPort
  else
    let bracketed :=
      if Ascii.eqb (byte_at hostport 0) "[" then
        let end_ := IndexByteString hostport "]" in
        if (end_ <? 0)%Z then addrErr hostport "missing ']' in address"
        else if (end_ + 1 =? len hostport)%Z then addrErr hostport missingPort
        else if (end_ + 1 =? i)%Z then
          Ok (slice hostport 1 end_, (1, end_ + 1)%Z)
        else if Ascii.eqb (byte_at hostport (end_ + 1)) ":" then
          addrErr hostport tooManyColons
        else addrErr hostport missingPort
      else
        let host := slice_to hostport i in
        if (0 <=? IndexByteString host ":")%Z then addrErr hostport tooManyColons
        else Ok (host, (0, 0)%Z) in
    '(host, (j, k)) ← bracketed;
    if (0 <=? IndexByteString (slice_from hostport j) "[")%Z then
      addrErr hostport "unexpected '[' in address"
    else if (0 <=? IndexByteString (slice_from hostport k) "]")%Z then
      addrErr hostport "unexpected ']' in address"
    else Ok (host, slice_from hostport (i + 1)).

(** [fmt.Sprintf("%d", n)]. *)
Definition Sprintf_d (n : Z) : string := NilZero.string_of_int (Z.to_int n).

(** ** Hosts *)

(** Host describes how to connect to a host. *)
Record Host : Type := mkHost {
  Address : string;
  Port : string;
  User : string;
  IdentityFile : string;
  KnownAs : string;
  Bastion : string
}.

(** The zero [Host{}] carrying only an address, as [ParseInventory] builds. *)
Definition Host_of_address (a : string) : Host :=
  mkHost a "" "" "" "" "".

(** GetHost returns address:port. *)
Definition GetHost (h : Host) : string := Address h +:+ ":" +:+ Port h.

(** GetHostname returns hostname as it was specified in Supfile. *)
Definition GetHostname (h : Host) : string :=
  if String.eqb (KnownAs h) "" then Address h else KnownAs h.

Definition GetPrefixText (h : Host) : string :=
  let prefix :=
    if String.eqb (KnownAs h) "" then User h +:+ "@" +:+ Address h +:+ ":" +:+ Port h
    else KnownAs h in
  prefix +:+ " | ".

(** Modelled from the spec: the record type of the SSH-config lookup table
    [extractedHostSSHConfig] is declared outside [supfile.go]; these are the
    fields [NewHost] reads, named as the spec lists them (aliases, resolved
    hostname, resolved user, resolved port, identity file, proxy-jump). *)
Record SSHConfigEntry : Type := mkSSHConfigEntry {
  ssh_Host : list string;
  ssh_HostName : string;
  ssh_User : string;
  ssh_Port : Z;
  ssh_IdentityFile : string;
  ssh_ProxyJump : string
}.

Section HostResolver.

(** [user.Current()]: the username of the invoking OS user, or the
    error of the lookup. *)
Variable user_Current : result string.
(** The process-wide SSH-config table, filled before any [NewHost] call. *)
Variable extractedHostSSHConfig : gmap string SSHConfigEntry.
(** [ResolvePath], the path normalisation declared outside this file. *)
Variable ResolvePath : string -> string.

(** NewHost parses and normalizes <user>@<host:port> from a given string. *)
Definition NewHost (hostStr : string) : result Host :=
  (* Remove extra "ssh://" schema *)
  let hostStr :=
    if (6 <? len hostStr)%Z && String.eqb (slice_to hostStr 6) "ssh://"
    then slice_from hostStr 6 else hostStr in
  (* Split by the last "@" *)
  let at_ := strings_LastIndex hostStr "@" in
  let '(user, hostStr) :=
    if negb (at_ =? -1)%Z
    then (slice_to hostStr at_, slice_from hostStr (at_ + 1))
    else ("", hostStr) in
  (* Add default user, if not set *)
  user ← (if String.eqb user "" then user_Current else Ok user);
  if strings_Contains hostStr "/" then
    Err (ErrorString "unexpected slash in the host URL")
  else
    (* Add default port, if not set *)
    '(hostStr, port) ←
      (if strings_Contains hostStr ":" then net_SplitHostPort hostStr
       else Ok (hostStr, "22"));
    match extractedHostSSHConfig !! hostStr with
    | Some conf =>
        match ssh_Host conf with
        | known :: _ =>
            Ok {| Address := ssh_HostName conf;
                  Port := Sprintf_d (ssh_Port conf);
                  User := ssh_User conf;
                  IdentityFile := ResolvePath (ssh_IdentityFile conf);
                  KnownAs := known;
                  Bastion := ssh_ProxyJump conf |}
        | [] => Panic "index out of range [0] with length 0"
        end
    | None =>
        Ok {| Address := hostStr; Port := port; User := user;
              IdentityFile := ""; KnownAs := ""; Bastion := "" |}
    end.

End HostResolver.

(** ** White space and line reading *)

(** The six ASCII bytes of [asciiSpace]. *)
Definition asciiSpace (a : ascii) : bool :=
  Ascii.eqb a "009" || Ascii.eqb a "010" || Ascii.eqb a "011"
  || Ascii.eqb a "012" || Ascii.eqb a "013" || Ascii.eqb a " ".

(** The UTF-8 encodings of the white-space runes above U+007F, as
    [unicode.IsSpace] has them: U+0085 and U+00A0 on two bytes; U+1680,
    U+2000 to U+200A, U+2028, U+2029, U+202F, U+205F and U+3000 on three. *)
Definition space2 (a b : ascii) : bool :=
  Ascii.eqb a "194" && (Ascii.eqb b "133" || Ascii.eqb b "160").

Definition space3 (a b c : ascii) : bool :=
  (Ascii.eqb a "225" && Ascii.eqb b "154" && Ascii.eqb c "128")
  || (Ascii.eqb a "226" && Ascii.eqb b "128"
      && ((Nat.leb 128 (nat_of_ascii c) && Nat.leb (nat_of_ascii c) 138)
          || Ascii.eqb c "168" || Ascii.eqb c "169" || Ascii.eqb c "175"))
  || (Ascii.eqb a "226" && Ascii.eqb b "129" && Ascii.eqb c "159")
  || (Ascii.eqb a "227" && Ascii.eqb b "128" && Ascii.eqb c "128").

(** [strings.TrimLeftFunc(s, unicode.IsSpace)]: drop leading white-space
    runes.  A byte sequence that is no valid encoding of a white-space
    rune stops the scan. *)
Fixpoint TrimLeftSpace (s : string) : string :=
  match s with
  | EmptyString => EmptyString
  | String a s1 =>
      if asciiSpace a then TrimLeftSpace s1
      else
        match s1 with
        | EmptyString => s
        | String b s2 =>
            if space2 a b then TrimLeftSpace s2
            else
              match s2 with
              | EmptyString => s
              | String c s3 => if space3 a b c then TrimLeftSpace s3 else s
              end
        end
  end.

Fixpoint str_rev_append (s acc : string) : string :=
  match s with
  | EmptyString => acc
  | String a s' => str_rev_append s' (String a acc)
  end.
Definition str_rev (s : string) : string := str_rev_append s EmptyString.

(** The scan of [strings.TrimRightFunc(s, unicode.IsSpace)], on the
    reversed string: the last rune is read backwards. *)
Fixpoint TrimLeftSpace_rev (r : string) : string :=
  match r with
  | EmptyString => EmptyString
  | String a r1 =>
      if asciiSpace a then TrimLeftSpace_rev r1
      else
        match r1 with
        | EmptyString => r
        | String b r2 =>
            if space2 b a then TrimLeftSpace_rev r2
            else
              match r2 with
              | EmptyString => r
              | String c r3 => if space3 c b a then TrimLeftSpace_rev r3 else r
              end
        end
  end.

Definition TrimRightSpace (s : string) : string :=
  str_rev (TrimLeftSpace_rev (str_rev s)).

(** [strings.TrimSpace]: all leading and trailing white space removed, as
    defined by Unicode. *)
Definition strings_TrimSpace (s : string) : string :=
  TrimRightSpace (TrimLeftSpace s).

(** [bytes.Buffer.ReadString(delim)] on a buffer holding [buf]: the bytes
    up to and including the first [delim], whether the end of the buffer
    was met first ([io.EOF], with the bytes read so far), and the buffer
    left. *)
Fixpoint ReadString (buf : string) (delim : ascii)
    : string * bool * string :=
  match buf with
  | EmptyString => (EmptyString, true, EmptyString)
  | String a rest =>
      if Ascii.eqb a delim then (String a EmptyString, false, rest)
      else
        let '(line, eof, rest') := ReadString rest delim in
        (String a line, eof, rest')
  end.

(** ** Environment variables *)

(** EnvVar represents an environment variable. *)
Record EnvVar : Type := mkEnvVar {
  Key : string;
  Value : string
}.

Definition EnvVar_String (e : EnvVar) : string := Key e +:+ "=" +:+ Value e.

(** The one-byte string holding a double quote. *)
Definition dquote : string := String "034" EmptyString.

(** AsExport returns the environment variable as a bash export statement. *)
Definition EnvVar_AsExport (e : EnvVar) : string :=
  "export " +:+ Key e +:+ "=" +:+ dquote +:+ Value e +:+ dquote +:+ ";".

(** [EnvList] is [[]*EnvVar]: a list of pointers.  The variables live in a
    store, so that a write through one pointer is seen through every
    copy of it. *)
Definition loc : Type := nat.
Definition EnvList : Type := list loc.
Abbreviation store := (gmap loc EnvVar).

Definition nil_deref {A : Type} : result A :=
  Panic "invalid memory address or nil pointer dereference".

(** Reading [*p]. *)
Definition load (h : store) (p : loc) : result EnvVar :=
  match h !! p with
  | Some v => Ok v
  | None => nil_deref
  end.

Fixpoint EnvList_Slice (h : store) (e : EnvList) : result (list string) :=
  match e with
  | [] => Ok []
  | p :: e' =>
      env ← load h p;
      envs ← EnvList_Slice h e';
      Ok (EnvVar_String env :: envs)
  end.

(** The scan of [Set]: the first entry whose key is [key]. *)
Fixpoint Set_scan (h : store) (e : EnvList) (key : string)
    : result (option loc) :=
  match e with
  | [] => Ok None
  | p :: e' =>
      v ← load h p;
      if String.eqb (Key v) key then Ok (Some p) else Set_scan h e' key
  end.

(** Set key to be equal value in this list. *)
Definition EnvList_Set (key value : string) (eh : EnvList * store)
    : result (EnvList * store) :=
  let '(e, h) := eh in
  found ← Set_scan h e key;
  match found with
  | Some p =>
      v ← load h p;
      Ok (e, <[p := mkEnvVar (Key v) value]> h)
  | None =>
      let p : loc := fresh (dom h) in
      Ok ((e ++ [p])%list, <[p := mkEnvVar key value]> h)
  end.

(** [EnvList.AsExport]: every entry as [export KEY="VALUE"; ] in order. *)
Fixpoint EnvList_AsExport (h : store) (e : EnvList) (exports : string)
    : result string :=
  match e with
  | [] => Ok exports
  | p :: e' =>
      v ← load h p;
      EnvList_AsExport h e' (exports +:+ EnvVar_AsExport v +:+ " ")
  end.

(** What a run of [ResolveValues] leaves behind: the store, the scripts
    handed to [bash -c] in order, and the returned error, if any. *)
Record resolved : Type := mkResolved {
  store_after : store;
  scripts_run : list string;
  returned : result unit
}.

Section EnvironmentChain.

(** [os.Getwd()] at the [i]-th entry. *)
Variable os_Getwd : nat -> result string.
(** [exec.Command("bash", "-c", script)] run in directory [dir] by
    [cmd.Output()] at the [i]-th entry: the captured standard output, or
    the error of the subprocess. *)
Variable bash_c : nat -> string -> string -> result string.

(** The loop of [ResolveValues] from entry [i] on. *)
Fixpoint ResolveValues_from (i : nat) (e : EnvList) (exports : string)
    (h : store) (ran : list string) : resolved :=
  match e with
  | [] => mkResolved h ran (Ok ())
  | p :: e' =>
      match h !! p with
      | None => mkResolved h ran nil_deref
      | Some v =>
          let exports := exports +:+ EnvVar_AsExport v in
          let script := exports +:+ "echo -n " +:+ Value v +:+ ";" in
          match os_Getwd i with
          | Ok cwd =>
              match bash_c i cwd script with
              | Ok resolvedValue =>
                  ResolveValues_from (S i) e' exports
                    (<[p := mkEnvVar (Key v) resolvedValue]> h)
                    (ran ++ [script])%list
              | Err err =>
                  mkResolved h (ran ++ [script])%list
                    (Err (Wrapf err
                            ("resolving env var " +:+ Key v +:+ " failed")))
              | Panic msg => mkResolved h (ran ++ [script])%list (Panic msg)
              end
          | Err err => mkResolved h ran (Err err)
          | Panic msg => mkResolved h ran (Panic msg)
          end
      end
  end.

Definition ResolveValues (e : EnvList) (h : store) : resolved :=
  match e with
  | [] => mkResolved h [] (Ok ())
  | _ => ResolveValues_from 0 e "" h []
  end.

End EnvironmentChain.

(** ** The document model *)

(** Upload represents file copy operation from localhost Src path to Dst
    path of every host in a given Network. *)
Record Upload : Type := mkUpload {
  Src : string;
  Dst : string;
  Exc : string
}.

(** Command represents command(s) to be run remotely. *)
Record Command : Type := mkCommand {
  Name : string;
  Desc : string;
  Local : bool;
  Run : string;
  Script : string;
  cmd_Upload : list Upload;
  Stdin : bool;
  Once : bool;
  Serial : Z;
  RunOnce : bool
}.

(** Network is group of hosts with extra custom env vars.  [Hosts] holds
    the host values themselves: no code of this file writes through a
    [*Host] once it is built. *)
Record Network : Type := mkNetwork {
  net_Env : EnvList;
  Inventory : string;
  Hosts : list Host;
  HostsFromConfig : list string;
  net_Bastion : string
}.

(** Networks, Commands and Targets: the names in order, and the entries. *)
Record Networks : Type := mkNetworks {
  net_Names : list string;
  nets : gmap string Network
}.

Record Commands : Type := mkCommands {
  cmd_Names : list string;
  cmds : gmap string Command
}.

Record Targets : Type := mkTargets {
  tgt_Names : list string;
  targets : gmap string (list string)
}.

(** Supfile represents the Stack Up configuration YAML file. *)
Record Supfile : Type := mkSupfile {
  sup_Networks : Networks;
  sup_Commands : Commands;
  sup_Targets : Targets;
  sup_Env : EnvList;
  Version : string
}.



Definition Commands_Get (c : Commands) (name : string) : option Command :=
  cmds c !! name.

Definition Targets_Get (t : Targets) (name : string) : option (list string) :=
  targets t !! name.

(** ** Decoding the named collections *)

(** A decoded YAML scalar of dynamic type [interface{}]: a Go string, or a
    value of another type with its [%v] text. *)
Inductive iface : Type :=
| IString (s : string)
| IOther (text : string).

(** [fmt.Sprintf("%v", x)]. *)
Definition Sprintf_v (x : iface) : string :=
  match x with
  | IString s => s
  | IOther text => text
  end.

(** The type assertion [x.(string)]. *)
Definition assert_string (x : iface) : result string :=
  match x with
  | IString s => Ok s
  | IOther _ => Panic "interface conversion: interface {} is not string"
  end.

(** [yaml.MapItem] and [yaml.MapSlice]. *)
Record MapItem : Type := mkMapItem {
  item_Key : iface;
  item_Value : iface
}.

(** The loop [for i, item := range items { Names[i] = item.Key.(string) }]. *)
Fixpoint item_names (items : list MapItem) : result (list string) :=
  match items with
  | [] => Ok []
  | item :: items' =>
      name ← assert_string (item_Key item);
      names ← item_names items';
      Ok (name :: names)
  end.

Section Collections.

(** The YAML node that the decoder hands to an [UnmarshalYAML] method
    through its [unmarshal] closure, and what [unmarshal] yields for each
    type of target the methods pass. *)
Variable node : Type.
Variable unmarshal_MapSlice : node -> result (list MapItem).
Variable unmarshal_nets : node -> result (gmap string Network).
Variable unmarshal_cmds : node -> result (gmap string Command).
Variable unmarshal_targets : node -> result (gmap string (list string)).
Variable unmarshal_NewNetwork : node -> result Network.

Definition Networks_UnmarshalYAML (y : node) : result Networks :=
  nets ← unmarshal_nets y;
  items ← unmarshal_MapSlice y;
  names ← item_names items;
  Ok (mkNetworks names nets).

Definition Commands_UnmarshalYAML (y : node) : result Commands :=
  cmds ← unmarshal_cmds y;
  items ← unmarshal_MapSlice y;
  names ← item_names items;
  Ok (mkCommands names cmds).

Definition Targets_UnmarshalYAML (y : node) : result Targets :=
  targets ← unmarshal_targets y;
  items ← unmarshal_MapSlice y;
  names ← item_names items;
  Ok (mkTargets names targets).

(** [EnvList.UnmarshalYAML]: each item is [Set] in turn on a fresh list. *)
Fixpoint Set_items (items : list MapItem) (eh : EnvList * store)
    : result (EnvList * store) :=
  match items with
  | [] => Ok eh
  | v :: items' =>
      eh' ← EnvList_Set (Sprintf_v (item_Key v)) (Sprintf_v (item_Value v)) eh;
      Set_items items' eh'
  end.

Definition EnvList_UnmarshalYAML (h : store) (y : node)
    : result (EnvList * store) :=
  items ← unmarshal_MapSlice y;
  Set_items items ([], h).

(** [Network.UnmarshalYAML]: the declared host strings become hosts. *)
Fixpoint append_hosts (NewHost : string -> result Host)
    (items : list string) (hosts : list Host) : result (list Host) :=
  match items with
  | [] => Ok hosts
  | item :: items' =>
      host ← NewHost item;
      append_hosts NewHost items' (hosts ++ [host])%list
  end.

Definition Network_UnmarshalYAML (NewHost : string -> result Host)
    (y : node) : result Network :=
  n ← unmarshal_NewNetwork y;
  hosts ← append_hosts NewHost (HostsFromConfig n) (Hosts n);
  Ok (mkNetwork (net_Env n) (Inventory n) hosts (HostsFromConfig n)
        (net_Bastion n)).

End Collections.

(** ** The version switch of [NewSupfile] *)

Definition newline : string := String "010" EmptyString.

Definition set_Version (conf : Supfile) (v : string) : Supfile :=
  mkSupfile (sup_Networks conf) (sup_Commands conf) (sup_Targets conf)
    (sup_Env conf) v.

Definition set_cmds (conf : Supfile) (m : gmap string Command) : Supfile :=
  mkSupfile (sup_Networks conf)
    (mkCommands (cmd_Names (sup_Commands conf)) m)
    (sup_Targets conf) (sup_Env conf) (Version conf).

Definition set_Once (cmd : Command) (b : bool) : Command :=
  mkCommand (Name cmd) (Desc cmd) (Local cmd) (Run cmd) (Script cmd)
    (cmd_Upload cmd) (Stdin cmd) b (Serial cmd) (RunOnce cmd).

(** What [NewSupfile] returns, and the texts it wrote to [os.Stderr], one
    per write. *)
Definition loaded : Type := result Supfile * list string.

Section VersionGate.

(** The order in which the [n]-th [range] loop of [NewSupfile] visits the
    keys of a map: Go leaves it unspecified. *)
Variable range_order : forall V : Type, nat -> gmap string V -> list string.
(** [yaml.Unmarshal(data, &conf)]. *)
Variable yaml_Unmarshal : string -> result Supfile.

(** case "0.1": the loop over the commands. *)
Fixpoint range_run_once (version : string) (m : gmap string Command)
    (keys : list string) : option error :=
  match keys with
  | [] => None
  | key :: keys' =>
      match m !! key with
      | Some cmd =>
          if RunOnce cmd then
            Some (ErrMustUpdate
                    ("command.run_once is not supported in Supfile v" +:+ version))
          else range_run_once version m keys'
      | None => range_run_once version m keys'
      end
  end.

(** case "0.2": the loop over the commands. *)
Fixpoint range_new_flags (version : string) (m : gmap string Command)
    (keys : list string) : option error :=
  match keys with
  | [] => None
  | key :: keys' =>
      match m !! key with
      | Some cmd =>
          if Once cmd then
            Some (ErrMustUpdate
                    ("command.once is not supported in Supfile v" +:+ version))
          else if Local cmd then
            Some (ErrMustUpdate
                    ("command.local is not supported in Supfile v" +:+ version))
          else if negb (Serial cmd =? 0)%Z then
            Some (ErrMustUpdate
                    ("command.serial is not supported in Supfile v" +:+ version))
          else range_new_flags version m keys'
      | None => range_new_flags version m keys'
      end
  end.

(** case "0.2": the loop over the networks. *)
Fixpoint range_inventory (version : string) (m : gmap string Network)
    (keys : list string) : option error :=
  match keys with
  | [] => None
  | key :: keys' =>
      match m !! key with
      | Some network =>
          if negb (String.eqb (Inventory network) "") then
            Some (ErrMustUpdate
                    ("network.inventory is not supported in Supfile v" +:+ version))
          else range_inventory version m keys'
      | None => range_inventory version m keys'
      end
  end.

(** case "0.3": the loop over the commands, which writes the visited
    entry back into the map it ranges over. *)
Fixpoint range_migrate (version : string) (keys : list string)
    (warning : string) (m : gmap string Command)
    : string * gmap string Command :=
  match keys with
  | [] => (warning, m)
  | key :: keys' =>
      match m !! key with
      | Some cmd =>
          if RunOnce cmd then
            range_migrate version keys'
              ("Warning: command.run_once was deprecated by command.once in Supfile v"
                 +:+ version +:+ newline)
              (<[key := set_Once cmd true]> m)
          else range_migrate version keys' warning m
      | None => range_migrate version keys' warning m
      end
  end.

(** case "0.4", "0.5". *)
Definition case_0_4 (conf : Supfile) : loaded := (Ok conf, []).

Definition case_0_3 (conf : Supfile) : loaded :=
  let m := cmds (sup_Commands conf) in
  let '(warning, m') :=
    range_migrate (Version conf) (range_order Command 3 m) "" m in
  let conf := set_cmds conf m' in
  (* fmt.Fprintln(os.Stderr, warning) *)
  let written := if String.eqb warning "" then [] else [warning +:+ newline] in
  let '(r, out) := case_0_4 conf in
  (r, (written ++ out)%list).

Definition case_0_2 (conf : Supfile) : loaded :=
  let m := cmds (sup_Commands conf) in
  match range_new_flags (Version conf) m (range_order Command 1 m) with
  | Some err => (Err err, [])
  | None =>
      let n := nets (sup_Networks conf) in
      match range_inventory (Version conf) n (range_order Network 2 n) with
      | Some err => (Err err, [])
      | None => case_0_3 conf
      end
  end.

Definition case_0_1 (conf : Supfile) : loaded :=
  let m := cmds (sup_Commands conf) in
  match range_run_once (Version conf) m (range_order Command 0 m) with
  | Some err => (Err err, [])
  | None => case_0_2 conf
  end.

(** The [switch conf.Version] with its [fallthrough] chain. *)
Definition switch_Version (conf : Supfile) : loaded :=
  let v := Version conf in
  if String.eqb v "" then case_0_1 (set_Version conf "0.1")
  else if String.eqb v "0.1" then case_0_1 conf
  else if String.eqb v "0.2" then case_0_2 conf
  else if String.eqb v "0.3" then case_0_3 conf
  else if String.eqb v "0.4" || String.eqb v "0.5" then case_0_4 conf
  else
    (Err (ErrUnsupportedSupfileVersion ("unsupported Supfile version " +:+ v)),
     []).

(** NewSupfile parses configuration file and returns Supfile or error. *)
Definition NewSupfile (data : string) : loaded :=
  match yaml_Unmarshal data with
  | Ok conf => switch_Version conf
  | Err err => (Err err, [])
  | Panic msg => (Panic msg, [])
  end.

End VersionGate.

(** ** The inventory expander *)

Section InventoryExpander.

(** [os.Environ()]. *)
Variable os_Environ : list string.
(** [exec.Command("/bin/sh", "-c", script)] run with environment [env] by
    [cmd.Output()]: the captured standard output, or the error. *)
Variable sh_c : list string -> string -> result string.

(** The [for] loop of [ParseInventory] over the buffer.  Every turn that
    does not leave the loop consumes at least one byte, so [fuel] above
    the length of the buffer is never used up. *)
Fixpoint read_hosts (fuel : nat) (buf : string) (hosts : list Host)
    : option (list Host) :=
  match fuel with
  | O => None
  | S fuel' =>
      let '(host, eof, buf') := ReadString buf "010" in
      if eof then Some hosts
      else
        let host := strings_TrimSpace host in
        (* skip empty lines and comments *)
        if String.eqb host "" || String.eqb (slice_to host 1) "#" then
          read_hosts fuel' buf' hosts
        else read_hosts fuel' buf' (hosts ++ [Host_of_address host])%list
  end.

Definition parse_output (output : string) : result (list Host) :=
  match read_hosts (S (String.length output)) output [] with
  | Some hosts => Ok hosts
  | None => Panic "unreachable"
  end.

(** ParseInventory runs the inventory command, if provided, and returns
    the hosts read from the command's output lines. *)
Definition ParseInventory (h : store) (n : Network) : result (list Host) :=
  if String.eqb (Inventory n) "" then Ok []
  else
    envs ← EnvList_Slice h (net_Env n);
    output ← sh_c (os_Environ ++ envs)%list (Inventory n);
    parse_output output.

End InventoryExpander.

(** ** Vocabulary of the host-string grammar *)

(** [str_mem c s]: the byte [c] occurs in [s]. *)
Fixpoint str_mem (c : ascii) (s : string) : bool :=
  match s with
  | EmptyString => false
  | String a s' => Ascii.eqb a c || str_mem c s'
  end.

(** [plain s]: [s] has none of the bytes that delimit the parts of a
    host string. *)
Definition plain (s : string) : bool :=
  negb (str_mem "@" s) && negb (str_mem "/" s) && negb (str_mem ":" s)
  && negb (str_mem "[" s) && negb (str_mem "]" s).

(** [has_scheme s]: the test [len(hostStr) > 6 && hostStr[:6] == "ssh://"]. *)
Definition has_scheme (s : string) : bool :=
  (6 <? len s)%Z && String.eqb (slice_to s 6) "ssh://".

(** [render_host user host port] writes [[user@]host[:port]]. *)
Definition render_host (user : option string) (host : string)
    (port : option string) : string :=
  match user with Some u => u +:+ "@" | None => "" end
  +:+ host +:+
  match port with Some p => ":" +:+ p | None => "" end.

(** The user of a host string: the inline one, else the OS user. *)
Definition user_or_current (user_Current : result string)
    (user : option string) : result string :=
  match user with Some u => Ok u | None => user_Current end.


(** ** Vocabulary of the inventory output *)

(** [terminated lines]: every line followed by a newline byte. *)
Fixpoint terminated (lines : list string) : string :=
  match lines with
  | [] => EmptyString
  | l :: lines' => l +:+ newline +:+ terminated lines'
  end.

(** A trimmed line is skipped when it is blank or its first byte is [#]. *)
Definition skipped (t : string) : bool :=
  match t with
  | EmptyString => true
  | String c _ => Ascii.eqb c "#"
  end.

(** The hosts of a sequence of lines: each line trimmed, the skipped ones
    left out, an address-only host for each of the others. *)
Definition hosts_of_lines (lines : list string) : list Host :=
  Host_of_address <$>
    List.filter (fun t => negb (skipped t)) (strings_TrimSpace <$> lines).

(** ** Vocabulary of the version switch *)

(** What case "0.3" does to one command. *)
Definition migrate (cmd : Command) : Command :=
  if RunOnce cmd then set_Once cmd true else cmd.

(** The text that case "0.3" hands to [fmt.Fprintln], and what reaches
    the standard error stream. *)
Definition deprecation_warning (version : string) : string :=
  "Warning: command.run_once was deprecated by command.once in Supfile v"
    +:+ version +:+ newline.

(** The declared version, with the default of an absent one. *)
Definition declared_version (conf : Supfile) : string :=
  if String.eqb (Version conf) "" then "0.1" else Version conf.

(** The document as the switch sees it once the default is filled in. *)
Definition with_default_version (conf : Supfile) : Supfile :=
  set_Version conf (declared_version conf).

(** A command uses a feature that version 0.2 does not have. *)
Definition uses_new_flag (cmd : Command) : Prop :=
  Once cmd = true \/ Local cmd = true \/ Serial cmd <> 0%Z.

(** The document uses a feature rejected at version 0.2 and below. *)
Definition rejected_at_0_2 (conf : Supfile) : Prop :=
  (exists key cmd, cmds (sup_Commands conf) !! key = Some cmd /\ uses_new_flag cmd)
  \/ (exists key network,
         nets (sup_Networks conf) !! key = Some network
         /\ Inventory network <> "").

(** The rules of the versions below 0.3 hold of the document. *)
Definition passes_earlier_rules (conf : Supfile) : Prop :=
  (Version conf ∈ [""; "0.1"] ->
   map_Forall (fun _ cmd => RunOnce cmd = false) (cmds (sup_Commands conf)))
  /\ (Version conf ∈ [""; "0.1"; "0.2"] ->
      map_Forall (fun _ cmd => Once cmd = false /\ Local cmd = false
                               /\ Serial cmd = 0%Z)
        (cmds (sup_Commands conf))
      /\ map_Forall (fun _ network => Inventory network = "")
           (nets (sup_Networks conf))).

(** The number of commands of the document with the deprecated flag. *)
Definition run_once_count (conf : Supfile) : nat :=
  length (List.filter (fun kc => RunOnce kc.2)
            (map_to_list (cmds (sup_Commands conf)))).

(** The error is of the upgrade-required kind. *)
Definition is_ErrMustUpdate (e : error) : bool :=
  match e with
  | ErrMustUpdate _ => true
  | _ => false
  end.

(** One admissible order of visit: that of [map_to_list]. *)
Definition listed_order : forall V : Type, nat -> gmap string V -> list string :=
  fun V _ m => (map_to_list m).*1.

(** ** Sample documents *)

(** A command that only sets the two run-once flags. *)
Definition sample_command (name : string) (once run_once : bool) : Command :=
  mkCommand name "" false "true" "" [] false once 0 run_once.

(** A document with the given version and commands, and nothing else. *)
Definition sample_supfile (version : string) (cs : list Command) : Supfile :=
  mkSupfile (mkNetworks [] ∅)
    (mkCommands (Name <$> cs) (list_to_map ((fun c => (Name c, c)) <$> cs)))
    (mkTargets [] ∅) [] version.

(** A decoder that knows one document, under the name "old", and the same
    document with another version under every other name. *)
Definition sample_decoder (conf : Supfile) (version : string)
    : string -> result Supfile :=
  fun data =>
    if String.eqb data "old" then Ok conf else Ok (set_Version conf version).

(** ** Vocabulary of the environment chain *)

(** The export statements of a sequence of variables, concatenated. *)
Fixpoint exports_of (raw : list EnvVar) : string :=
  match raw with
  | [] => EmptyString
  | v :: raw' => EnvVar_AsExport v +:+ exports_of raw'
  end.

(** The script for the variable [v] after the exports [exports]. *)
Definition script_of (exports : string) (v : EnvVar) : string :=
  exports +:+ "echo -n " +:+ Value v +:+ ";".

(** The script of entry [i] when the loop started with [exports] already
    accumulated: the exports of the entries up to [i], from their raw
    values, then the [echo -n] of the raw value of entry [i]. *)
Definition script_at (exports : string) (raw : list EnvVar) (i : nat) : string :=
  match raw !! i with
  | Some v => script_of (exports +:+ exports_of (take (S i) raw)) v
  | None => EmptyString
  end.

Definition script_for (raw : list EnvVar) (i : nat) : string :=
  script_at EmptyString raw i.

(** The pointers of [e] point in [h] to the variables [raw], in order. *)
Definition points_to (h : store) (e : EnvList) (raw : list EnvVar) : Prop :=
  Forall2 (fun p v => h !! p = Some v) e raw.

(** A list as [Set] builds it: no pointer twice, none dangling. *)
Definition unaliased (eh : EnvList * store) : Prop :=
  NoDup eh.1 /\ forall p, p ∈ eh.1 -> is_Some (eh.2 !! p).

(** The chain [FOO=bar, BAZ=$FOO-baz] at the addresses 1 and 2. *)
Definition sample_chain : EnvList := [1; 2].
Definition sample_store : store :=
  <[1 := mkEnvVar "FOO" "bar"]> (<[2 := mkEnvVar "BAZ" "$FOO-baz"]> ∅).
Definition sample_raw : list EnvVar :=
  [mkEnvVar "FOO" "bar"; mkEnvVar "BAZ" "$FOO-baz"].

(** A shell that knows the two scripts of the sample chain and answers
    them as [bash] does, and fails on every other script. *)
Definition sample_bash (i : nat) (dir script : string) : result string :=
  if String.eqb script
       ("export FOO=" +:+ dquote +:+ "bar" +:+ dquote +:+ ";echo -n bar;")
  then Ok "bar"
  else if String.eqb script
       ("export FOO=" +:+ dquote +:+ "bar" +:+ dquote +:+ ";export BAZ="
          +:+ dquote +:+ "$FOO-baz" +:+ dquote +:+ ";echo -n $FOO-baz;")
  then Ok "bar-baz"
  else Err (OSError "exit status 1").

(** A shell that resolves the first entry to "bar" and fails afterwards. *)
Definition failing_bash (i : nat) (dir script : string) : result string :=
  match i with
  | O => Ok "bar"
  | S _ => Err (OSError "exit status 127")
  end.

(** ** Sample collection *)


(** ** More sample inputs *)

Definition doc_0_3 : Supfile :=
  sample_supfile "0.3" [sample_command "deploy" false true].

Definition doc_0_2 : Supfile :=
  sample_supfile "0.2" [sample_command "deploy" true false].

Definition doc_9_9 : Supfile := sample_supfile "9.9" [].

(** A host group whose inventory command is [cat hosts]. *)
Definition sample_network : Network := mkNetwork [] "cat hosts" [] [] "".

(** A chain whose two entries are one and the same variable. *)
Definition aliased_chain : EnvList := [1; 1].
Definition aliased_store : store := <[1 := mkEnvVar "FOO" "bar"]> ∅.


(** ** Vocabulary of [Set] *)

(** [Set] on the variables themselves: the first variable whose key is
    [key] gets the value, at its place; without one, a new variable is
    put last. *)
Fixpoint set_entry (key value : string) (raw : list EnvVar) : list EnvVar :=
  match raw with
  | [] => [mkEnvVar key value]
  | v :: raw' =>
      if String.eqb (Key v) key then mkEnvVar (Key v) value :: raw'
      else v :: set_entry key value raw'
  end.

(** The variables that [EnvList.UnmarshalYAML] builds from the items. *)
Definition env_of_items (items : list MapItem) : list EnvVar :=
  foldl (fun raw item =>
           set_entry (Sprintf_v (item_Key item)) (Sprintf_v (item_Value item)) raw)
    [] items.

(** The keys of a sequence in the order of their first occurrence. *)
Definition first_occurrences (keys : list string) : list string :=
  foldl (fun acc k => if decide (k ∈ acc) then acc else (acc ++ [k])%list) [] keys.

(** The key and the value of an item as [fmt.Sprintf("%v", _)] prints them. *)
Definition item_key_text (item : MapItem) : string := Sprintf_v (item_Key item).
Definition item_value_text (item : MapItem) : string := Sprintf_v (item_Value item).

(** ** The stages of [NewHost] *)

(** The three steps that [NewHost] takes on its argument before it makes
    the host, named so that each can be stated on its own. *)
Definition strip_scheme (hostStr : string) : string :=
  if (6 <? len hostStr)%Z && String.eqb (slice_to hostStr 6) "ssh://"
  then slice_from hostStr 6 else hostStr.

Definition split_user (hostStr : string) : string * string :=
  let at_ := strings_LastIndex hostStr "@" in
  if negb (at_ =? -1)%Z
  then (slice_to hostStr at_, slice_from hostStr (at_ + 1))
  else ("", hostStr).

Definition split_port (hostStr : string) : result (string * string) :=
  if strings_Contains hostStr ":" then net_SplitHostPort hostStr
  else Ok (hostStr, "22").

(** The host that [NewHost] makes from an SSH-config entry. *)
Definition host_of_ssh_config (ResolvePath : string -> string)
    (conf : SSHConfigEntry) (known : string) : Host :=
  {| Address := ssh_HostName conf;
     Port := Sprintf_d (ssh_Port conf);
     User := ssh_User conf;
     IdentityFile := ResolvePath (ssh_IdentityFile conf);
     KnownAs := known;
     Bastion := ssh_ProxyJump conf |}.

(** ** More vocabulary *)

(** The number of occurrences of a byte in a string. *)
Fixpoint count_byte (c : ascii) (s : string) : nat :=
  match s with
  | EmptyString => 0
  | String a s' => (if Ascii.eqb a c then 1 else 0) + count_byte c s'
  end.

(** A network with its hosts replaced. *)
Definition set_Hosts (n : Network) (hosts : list Host) : Network :=
  mkNetwork (net_Env n) (Inventory n) hosts (HostsFromConfig n) (net_Bastion n).

(** ** Sample inputs of the further properties *)

(** Items that declare FOO twice. *)
Definition sample_env_items : list MapItem :=
  [mkMapItem (IString "FOO") (IString "bar");
   mkMapItem (IString "PORT") (IOther "8080");
   mkMapItem (IString "FOO") (IString "baz")].

(** An SSH-config table with one entry, for the alias "web". *)
Definition sample_ssh_entry : SSHConfigEntry :=
  mkSSHConfigEntry ["web"; "web.internal"] "10.1.2.3" "deploy" 2222
    "~/.ssh/id_web" "jump".
Definition sample_ssh_table : gmap string SSHConfigEntry :=
  <["web" := sample_ssh_entry]> ∅.

(** A host parser that accepts every string but "bad/host". *)
Definition sample_parser (s : string) : result Host :=
  if String.eqb s "bad/host"
  then Err (ErrorString "unexpected slash in the host URL")
  else Ok (mkHost s "22" "alice" "" "" "").

(** A network decoded with two host strings. *)
Definition sample_decoded_network : Network :=
  mkNetwork [] "" [] ["web1"; "web2"] "".

(** A document of version 0.1 with a command that sets [run_once]. *)
Definition doc_0_1 : Supfile :=
  sample_supfile "0.1" [sample_command "deploy" false true].

(** Items whose second key is the integer 8080. *)
Definition sample_bad_items : list MapItem :=
  [mkMapItem (IString "web") (IOther "map[]");
   mkMapItem (IOther "8080") (IOther "map[]")].
(** * Properties

    The lemmas below are about the definitions above: first the facts
    about the byte-string primitives, then one part per component. *)

Example NewHost_ex1 :
  NewHost (Ok "alice") ∅ id "ssh://deploy@10.0.0.5:2200"
  = Ok (mkHost "10.0.0.5" "2200" "deploy" "" "" "").
Proof. reflexivity. Qed.
Example NewHost_ex2 :
  NewHost (Ok "alice") ∅ id "10.0.0.5" = Ok (mkHost "10.0.0.5" "22" "alice" "" "" "").
Proof. reflexivity. Qed.
Example NewHost_ex3 :
  NewHost (Ok "alice") ∅ id "a/b" = Err (ErrorString "unexpected slash in the host URL").
Proof. reflexivity. Qed.
Example NewHost_ex4 :
  NewHost (Ok "alice") ∅ id "[::1]:22" = Ok (mkHost "::1" "22" "alice" "" "" "").
Proof. reflexivity. Qed.

(** ** Facts about the byte-string primitives *)

Lemma app_nil_l (v : string) : EmptyString +:+ v = v.
Proof. reflexivity. Qed.

Lemma app_cons (a : ascii) (u v : string) :
  String a u +:+ v = String a (u +:+ v).
Proof. reflexivity. Qed.

Lemma str_app_assoc (u v w : string) : (u +:+ v) +:+ w = u +:+ (v +:+ w).
Proof.
  induction u as [|a u IH]; rewrite ?app_nil_l, ?app_cons; [done|by rewrite IH].
Qed.

Lemma str_app_nil_r (u : string) : u +:+ EmptyString = u.
Proof.
  induction u as [|a u IH]; rewrite ?app_nil_l, ?app_cons; [done|by rewrite IH].
Qed.

Lemma str_length_app (u v : string) :
  String.length (u +:+ v) = String.length u + String.length v.
Proof.
  induction u as [|a u IH]; rewrite ?app_nil_l, ?app_cons; simpl; lia.
Qed.

Lemma len_app (u v : string) : len (u +:+ v) = (len u + len v)%Z.
Proof.
  unfold len. induction u as [|a u IH]; rewrite ?app_nil_l, ?app_cons; simpl; lia.
Qed.

Lemma len_nonneg (s : string) : (0 <= len s)%Z.
Proof. unfold len. lia. Qed.

Lemma str_drop_app (u v : string) : str_drop (String.length u) (u +:+ v) = v.
Proof. induction u as [|a u IH]; rewrite ?app_nil_l, ?app_cons; simpl; done. Qed.

Lemma str_take_app (u v : string) : str_take (String.length u) (u +:+ v) = u.
Proof.
  induction u as [|a u IH]; rewrite ?app_nil_l, ?app_cons; simpl;
    [by destruct v|by rewrite IH].
Qed.

Lemma slice_from_app (u v : string) : slice_from (u +:+ v) (len u) = v.
Proof. unfold slice_from, len. rewrite Nat2Z.id. apply str_drop_app. Qed.

Lemma slice_to_app (u v : string) : slice_to (u +:+ v) (len u) = u.
Proof.
  unfold slice_to, slice, len. rewrite Z.sub_0_r, Nat2Z.id. simpl str_drop.
  apply str_take_app.
Qed.

Lemma str_mem_app (c : ascii) (u v : string) :
  str_mem c (u +:+ v) = str_mem c u || str_mem c v.
Proof.
  induction u as [|a u IH]; rewrite ?app_nil_l, ?app_cons; simpl; [done|].
  by rewrite IH, orb_assoc.
Qed.

Lemma Contains_byte (c : ascii) (s : string) :
  strings_Contains s (String c EmptyString) = str_mem c s.
Proof.
  induction s as [|a s IH]; simpl; [done|].
  by rewrite IH, andb_true_r.
Qed.

Lemma IndexByte_absent (c : ascii) (s : string) (off : Z) :
  str_mem c s = false -> IndexByte_at off s c = (-1)%Z.
Proof.
  revert off. induction s as [|a s IH]; simpl; intros off H; [done|].
  apply orb_false_iff in H as [-> H]. by apply IH.
Qed.

Lemma LastIndexByte_absent (c : ascii) (s : string) (off : Z) :
  str_mem c s = false -> LastIndexByte_at off s c = (-1)%Z.
Proof.
  revert off. induction s as [|a s IH]; simpl; intros off H; [done|].
  apply orb_false_iff in H as [-> H]. by rewrite IH.
Qed.

Lemma LastIndexByte_last (c : ascii) (u r : string) (off : Z) :
  (0 <= off)%Z -> str_mem c r = false ->
  LastIndexByte_at off (u +:+ String c r) c = (off + len u)%Z.
Proof.
  revert off. induction u as [|a u IH]; intros off Hoff Hr;
    rewrite ?app_nil_l, ?app_cons.
  - simpl. rewrite (LastIndexByte_absent _ _ _ Hr). simpl.
    rewrite Ascii.eqb_refl. unfold len. simpl. lia.
  - simpl. rewrite IH by (done || lia).
    pose proof (len_nonneg u).
    destruct (Z.leb_spec 0 (off + 1 + len u)); [|lia].
    unfold len in *. simpl String.length. lia.
Qed.

Lemma LastIndex_byte (c : ascii) (s : string) (off : Z) :
  LastIndex_at off s (String c EmptyString) = LastIndexByte_at off s c.
Proof.
  revert off. induction s as [|a s IH]; simpl; intros off; [done|].
  by rewrite IH, andb_true_r.
Qed.

Lemma byte_at_0_app (a : ascii) (u v : string) :
  byte_at (u +:+ String a v) 0 = match u with String b _ => b | EmptyString => a end.
Proof. by destruct u. Qed.

Lemma plain_spec (s : string) :
  plain s = true ->
  str_mem "@" s = false /\ str_mem "/" s = false /\ str_mem ":" s = false
  /\ str_mem "[" s = false /\ str_mem "]" s = false.
Proof.
  unfold plain. rewrite !andb_true_iff, !negb_true_iff. tauto.
Qed.

(** [net.SplitHostPort] on [host:port] with plain parts. *)
Lemma SplitHostPort_plain (host port : string) :
  plain host = true -> plain port = true ->
  net_SplitHostPort (host +:+ ":" +:+ port) = Ok (host, port).
Proof.
  intros (_ & _ & Hc & Hl & Hr)%plain_spec (_ & _ & Hpc & Hpl & Hpr)%plain_spec.
  unfold net_SplitHostPort, LastIndexByteString.
  change (host +:+ ":" +:+ port) with (host +:+ String ":" port).
  rewrite LastIndexByte_last by done. rewrite Z.add_0_l.
  pose proof (len_nonneg host).
  destruct (Z.ltb_spec (len host) 0); [lia|].
  rewrite byte_at_0_app.
  assert (Ascii.eqb (match host with String b _ => b | EmptyString => ":"%char end) "["
          = false) as ->.
  { destruct host as [|b host']; [done|].
    simpl in Hl. by apply orb_false_iff in Hl as [-> _]. }
  rewrite slice_to_app. unfold IndexByteString.
  rewrite (IndexByte_absent ":" host) by done. simpl.
  unfold slice_from at 1 2. simpl str_drop.
  rewrite !IndexByte_absent; simpl.
  - replace (len host + 1)%Z with (len (host +:+ ":")).
    + change (host +:+ String ":" port) with (host +:+ (":" +:+ port)).
      rewrite <- str_app_assoc. by rewrite slice_from_app.
    + rewrite len_app. done.
  - rewrite str_mem_app. simpl. by rewrite Hr, Hpr.
  - rewrite str_mem_app. simpl. by rewrite Hl, Hpl.
Qed.

Lemma slice_from_app_cons (c : ascii) (u r : string) :
  slice_from (u +:+ String c r) (len u + 1) = r.
Proof.
  replace (len u + 1)%Z with (len (u +:+ String c EmptyString)).
  - replace (u +:+ String c r) with ((u +:+ String c EmptyString) +:+ r).
    + apply slice_from_app.
    + by rewrite str_app_assoc.
  - rewrite len_app. done.
Qed.



(** ** The host-string grammar *)

Section HostResolverFacts.

Variable user_Current : result string.
Variable extractedHostSSHConfig : gmap string SSHConfigEntry.
Variable ResolvePath : string -> string.

Local Abbreviation NewHost' := (NewHost user_Current extractedHostSSHConfig ResolvePath).


(** After the scheme, the string splits at its last ["@"]. *)
Lemma NewHost_split (user : option string) (rest : string) :
  user <> Some "" -> str_mem "@" rest = false ->
  has_scheme (match user with Some u => u +:+ "@" | None => "" end +:+ rest) = false ->
  NewHost' (match user with Some u => u +:+ "@" | None => "" end +:+ rest) =
  u ← user_or_current user_Current user;
  if str_mem "/" rest then Err (ErrorString "unexpected slash in the host URL")
  else
    '(hostStr, port) ←
      (if str_mem ":" rest then net_SplitHostPort rest else Ok (rest, "22"));
    match extractedHostSSHConfig !! hostStr with
    | Some conf =>
        match ssh_Host conf with
        | known :: _ =>
            Ok {| Address := ssh_HostName conf;
                  Port := Sprintf_d (ssh_Port conf);
                  User := ssh_User conf;
                  IdentityFile := ResolvePath (ssh_IdentityFile conf);
                  KnownAs := known;
                  Bastion := ssh_ProxyJump conf |}
        | [] => Panic "index out of range [0] with length 0"
        end
    | None =>
        Ok {| Address := hostStr; Port := port; User := u;
              IdentityFile := ""; KnownAs := ""; Bastion := "" |}
    end.
Proof.
  intros Hu Hat Hn. unfold NewHost.
  match goal with |- context [(6 <? len ?s)%Z && _] => fold (has_scheme s) end.
  rewrite Hn. unfold strings_LastIndex. rewrite LastIndex_byte.
  destruct user as [u|]; simpl user_or_current.
  - rewrite str_app_assoc. change ("@" +:+ rest) with (String "@" rest).
    rewrite LastIndexByte_last by done. rewrite Z.add_0_l.
    pose proof (len_nonneg u).
    destruct (Z.eqb_spec (len u) (-1)); [lia|]. simpl negb. cbv iota.
    rewrite slice_to_app, slice_from_app_cons.
    destruct (String.eqb_spec u ""); [congruence|].
    by rewrite !Contains_byte.
  - rewrite app_nil_l. rewrite LastIndexByte_absent by done.
    simpl. by rewrite !Contains_byte.
Qed.




End HostResolverFacts.

(** ** White space *)

Lemma space2_newline (a : ascii) : space2 a "010" = false.
Proof. unfold space2. simpl. apply andb_false_r. Qed.

Lemma space3_newline (a b : ascii) : space3 a b "010" = false.
Proof. unfold space3. simpl. by rewrite !andb_false_r. Qed.

Lemma space3_newline_mid (a c : ascii) : space3 a "010" c = false.
Proof. unfold space3. simpl. by rewrite !andb_false_r. Qed.

Lemma TrimLeftSpace_cons (a : ascii) (s1 : string) :
  TrimLeftSpace (String a s1) =
  if asciiSpace a then TrimLeftSpace s1
  else
    match s1 with
    | EmptyString => String a s1
    | String b s2 =>
        if space2 a b then TrimLeftSpace s2
        else
          match s2 with
          | EmptyString => String a s1
          | String c s3 =>
              if space3 a b c then TrimLeftSpace s3 else String a s1
          end
    end.
Proof. reflexivity. Qed.

Lemma TrimLeftSpace_newline_bounded (n : nat) (l : string) :
  String.length l <= n ->
  TrimLeftSpace (l +:+ newline) =
  if String.eqb (TrimLeftSpace l) "" then "" else TrimLeftSpace l +:+ newline.
Proof.
  revert l. induction n as [|n IH]; intros l Hn.
  { destruct l; [done|simpl in Hn; lia]. }
  destruct l as [|a s1]; [done|].
  simpl in Hn. rewrite app_cons, !TrimLeftSpace_cons.
  destruct (asciiSpace a); [apply IH; lia|].
  destruct s1 as [|b s2].
  { rewrite app_nil_l. unfold newline at 1. by rewrite space2_newline. }
  simpl in Hn. rewrite app_cons.
  destruct (space2 a b); [apply IH; lia|].
  destruct s2 as [|c s3].
  { rewrite app_nil_l. unfold newline at 1. by rewrite space3_newline. }
  simpl in Hn. rewrite app_cons.
  destruct (space3 a b c); [apply IH; lia|done].
Qed.

Lemma str_rev_append_app (s t acc : string) :
  str_rev_append (s +:+ t) acc = str_rev_append t (str_rev_append s acc).
Proof.
  revert acc. induction s as [|a s IH]; intros acc;
    rewrite ?app_nil_l, ?app_cons; simpl; [done|apply IH].
Qed.

Lemma TrimRightSpace_newline (t : string) :
  TrimRightSpace (t +:+ newline) = TrimRightSpace t.
Proof.
  unfold TrimRightSpace, str_rev. by rewrite str_rev_append_app.
Qed.

(** Trimming a line with its terminator is trimming the line. *)
Lemma TrimSpace_newline (l : string) :
  strings_TrimSpace (l +:+ newline) = strings_TrimSpace l.
Proof.
  unfold strings_TrimSpace.
  rewrite (TrimLeftSpace_newline_bounded (String.length l)) by done.
  destruct (String.eqb_spec (TrimLeftSpace l) "") as [->|]; [done|].
  apply TrimRightSpace_newline.
Qed.

(** ** Reading the inventory output *)

Lemma ReadString_line (l rest : string) :
  str_mem "010" l = false ->
  ReadString (l +:+ newline +:+ rest) "010" = (l +:+ newline, false, rest).
Proof.
  induction l as [|a l IH]; intros Hl; rewrite ?app_nil_l, ?app_cons; [done|].
  simpl in Hl. apply orb_false_iff in Hl as [Ha Hl].
  simpl. rewrite Ha. by rewrite IH.
Qed.

Lemma ReadString_unterminated (tail : string) :
  str_mem "010" tail = false ->
  ReadString tail "010" = (tail, true, EmptyString).
Proof.
  induction tail as [|a l IH]; intros Hl; [done|].
  simpl in Hl. apply orb_false_iff in Hl as [Ha Hl].
  simpl. rewrite Ha. by rewrite IH.
Qed.

(** The test of the loop is the test [skipped]. *)
Lemma skip_test (host : string) :
  String.eqb host "" || String.eqb (slice_to host 1) "#" = skipped host.
Proof.
  destruct host as [|c host]; [done|].
  unfold slice_to, slice. simpl. by destruct (Ascii.eqb c "#").
Qed.

Lemma length_terminated_cons (l : string) (lines : list string) (tail : string) :
  String.length (terminated lines +:+ tail)
  < String.length (terminated (l :: lines) +:+ tail).
Proof.
  simpl terminated. rewrite !str_length_app. simpl. lia.
Qed.

Section InventoryFacts.

Variable os_Environ : list string.
Variable sh_c : list string -> string -> result string.

Lemma read_hosts_lines (lines : list string) (tail : string) :
  Forall (fun l => str_mem "010" l = false) lines ->
  str_mem "010" tail = false ->
  forall (fuel : nat) (hosts : list Host),
    String.length (terminated lines +:+ tail) < fuel ->
    read_hosts fuel (terminated lines +:+ tail) hosts
    = Some (hosts ++ hosts_of_lines lines)%list.
Proof.
  intros Hlines Htail. induction Hlines as [|l lines Hl _ IH];
    intros fuel hosts Hfuel.
  - destruct fuel as [|fuel]; [lia|]. simpl terminated. rewrite app_nil_l.
    simpl. rewrite ReadString_unterminated by done.
    by rewrite app_nil_r.
  - destruct fuel as [|fuel]; [lia|].
    pose proof (length_terminated_cons l lines tail).
    simpl terminated in *. rewrite !str_app_assoc in *.
    simpl read_hosts. rewrite ReadString_line by done.
    rewrite TrimSpace_newline, skip_test.
    unfold hosts_of_lines. simpl.
    destruct (skipped (strings_TrimSpace l)); simpl.
    + apply IH. lia.
    + rewrite IH by lia. by rewrite <- app_assoc.
Qed.

Lemma parse_output_lines (lines : list string) (tail : string) :
  Forall (fun l => str_mem "010" l = false) lines ->
  str_mem "010" tail = false ->
  parse_output (terminated lines +:+ tail) = Ok (hosts_of_lines lines).
Proof.
  intros Hlines Htail. unfold parse_output.
  by rewrite (read_hosts_lines lines tail Hlines Htail) by lia.
Qed.

Local Abbreviation ParseInventory' := (ParseInventory os_Environ sh_c).


(** C10. An output that does not end with a newline byte loses its last,
    unterminated line: the hosts are those of the terminated lines alone.
    The output [host1\nhost2] gives the single host host1, although
    host2 is neither blank nor a comment. *)
Theorem ParseInventory_drops_unterminated_line :
  (forall (h : store) (n : Network) (envs lines : list string) (tail : string),
      Inventory n <> "" ->
      EnvList_Slice h (net_Env n) = Ok envs ->
      Forall (fun l => str_mem "010" l = false) lines ->
      str_mem "010" tail = false ->
      sh_c (os_Environ ++ envs)%list (Inventory n)
      = Ok (terminated lines +:+ tail) ->
      ParseInventory' h n = parse_output (terminated lines))
  /\ (forall (h : store) (n : Network) (envs : list string),
      Inventory n <> "" ->
      EnvList_Slice h (net_Env n) = Ok envs ->
      sh_c (os_Environ ++ envs)%list (Inventory n)
      = Ok ("host1" +:+ newline +:+ "host2") ->
      skipped (strings_TrimSpace "host2") = false
      /\ ParseInventory' h n = Ok [Host_of_address "host1"]).
Proof.
  assert (forall (h : store) (n : Network) (envs lines : list string) (tail : string),
      Inventory n <> "" ->
      EnvList_Slice h (net_Env n) = Ok envs ->
      Forall (fun l => str_mem "010" l = false) lines ->
      str_mem "010" tail = false ->
      sh_c (os_Environ ++ envs)%list (Inventory n)
      = Ok (terminated lines +:+ tail) ->
      ParseInventory' h n = parse_output (terminated lines)) as Hgen.
  { intros h n envs lines tail Hinv Henv Hlines Htail Hout.
    unfold ParseInventory.
    destruct (String.eqb_spec (Inventory n) ""); [done|].
    rewrite Henv. simpl. rewrite Hout. simpl.
    rewrite parse_output_lines by done.
    rewrite <- (str_app_nil_r (terminated lines)).
    by rewrite parse_output_lines. }
  split; [exact Hgen|].
  intros h n envs Hinv Henv Hout. split; [done|].
  rewrite (Hgen h n envs ["host1"] "host2"); [done..| |done|done].
  by repeat constructor.
Qed.

End InventoryFacts.

(** ** The version switch *)

(** Membership in a list given by its elements. *)
Ltac list_elem_solver :=
  rewrite ?elem_of_cons, ?elem_of_nil in *; intuition congruence.

Lemma range_run_once_kind (v : string) (m : gmap string Command)
    (keys : list string) (e : error) :
  range_run_once v m keys = Some e ->
  e = ErrMustUpdate ("command.run_once is not supported in Supfile v" +:+ v).
Proof.
  induction keys as [|key keys IH]; simpl; [done|].
  destruct (m !! key) as [cmd|]; [|done].
  destruct (RunOnce cmd); [congruence|done].
Qed.

Lemma range_run_once_none (v : string) (m : gmap string Command)
    (keys : list string) :
  map_Forall (fun _ cmd => RunOnce cmd = false) m ->
  range_run_once v m keys = None.
Proof.
  intros Hm. induction keys as [|key keys IH]; simpl; [done|].
  destruct (m !! key) as [cmd|] eqn:Hk; [|done].
  by rewrite (Hm _ _ Hk).
Qed.

Lemma range_new_flags_kind (v : string) (m : gmap string Command)
    (keys : list string) (e : error) :
  range_new_flags v m keys = Some e -> exists msg, e = ErrMustUpdate msg.
Proof.
  induction keys as [|key keys IH]; simpl; [done|].
  destruct (m !! key) as [cmd|]; [|done].
  destruct (Once cmd); [intros [= <-]; eauto|].
  destruct (Local cmd); [intros [= <-]; eauto|].
  destruct (negb (Serial cmd =? 0)%Z); [intros [= <-]; eauto|done].
Qed.

Lemma range_new_flags_none (v : string) (m : gmap string Command)
    (keys : list string) :
  map_Forall (fun _ cmd => Once cmd = false /\ Local cmd = false
                           /\ Serial cmd = 0%Z) m ->
  range_new_flags v m keys = None.
Proof.
  intros Hm. induction keys as [|key keys IH]; simpl; [done|].
  destruct (m !! key) as [cmd|] eqn:Hk; [|done].
  destruct (Hm _ _ Hk) as (-> & -> & ->). done.
Qed.

Lemma range_new_flags_some (v : string) (m : gmap string Command)
    (keys : list string) (key : string) (cmd : Command) :
  key ∈ keys -> m !! key = Some cmd -> uses_new_flag cmd ->
  is_Some (range_new_flags v m keys).
Proof.
  intros Hin Hk Hflag. induction Hin as [key keys|key key' keys _ IH]; simpl.
  - rewrite Hk. destruct (Once cmd) eqn:HO; [eauto|].
    destruct (Local cmd) eqn:HL; [eauto|].
    destruct (Z.eqb_spec (Serial cmd) 0) as [H0|]; simpl; [|eauto].
    destruct Hflag as [?|[?|?]]; congruence.
  - destruct (m !! key') as [cmd'|]; [|by apply IH].
    destruct (Once cmd'); [eauto|].
    destruct (Local cmd'); [eauto|].
    destruct (negb (Serial cmd' =? 0)%Z); [eauto|by apply IH].
Qed.

Lemma range_inventory_kind (v : string) (m : gmap string Network)
    (keys : list string) (e : error) :
  range_inventory v m keys = Some e -> exists msg, e = ErrMustUpdate msg.
Proof.
  induction keys as [|key keys IH]; simpl; [done|].
  destruct (m !! key) as [network|]; [|done].
  destruct (negb (Inventory network =? "")); [intros [= <-]; eauto|done].
Qed.

Lemma range_inventory_none (v : string) (m : gmap string Network)
    (keys : list string) :
  map_Forall (fun _ network => Inventory network = "") m ->
  range_inventory v m keys = None.
Proof.
  intros Hm. induction keys as [|key keys IH]; simpl; [done|].
  destruct (m !! key) as [network|] eqn:Hk; [|done].
  by rewrite (Hm _ _ Hk).
Qed.

Lemma range_inventory_some (v : string) (m : gmap string Network)
    (keys : list string) (key : string) (network : Network) :
  key ∈ keys -> m !! key = Some network -> Inventory network <> "" ->
  is_Some (range_inventory v m keys).
Proof.
  intros Hin Hk Hinv. induction Hin as [key keys|key key' keys _ IH]; simpl.
  - rewrite Hk. destruct (String.eqb_spec (Inventory network) ""); [done|].
    simpl. eauto.
  - destruct (m !! key') as [network'|]; [|by apply IH].
    destruct (negb (Inventory network' =? "")); [eauto|by apply IH].
Qed.

Lemma migrate_idemp (cmd : Command) : migrate (migrate cmd) = migrate cmd.
Proof. unfold migrate. by destruct cmd as [? ? ? ? ? ? ? ? ? []]. Qed.


Lemma migrate_Once (cmd : Command) :
  RunOnce cmd = true -> Once (migrate cmd) = true.
Proof. unfold migrate. by intros ->. Qed.

(** The map that the loop of case "0.3" leaves: the visited keys are
    migrated, the others untouched. *)
Lemma range_migrate_lookup (v : string) (keys : list string) (w : string)
    (m : gmap string Command) (k : string) :
  ((range_migrate v keys w m).2 !! k = migrate <$> m !! k /\ k ∈ keys)
  \/ ((range_migrate v keys w m).2 !! k = m !! k /\ k ∉ keys).
Proof.
  revert w m. induction keys as [|key keys IH]; intros w m; simpl.
  { right. split; [done|]. list_elem_solver. }
  destruct (m !! key) as [cmd|] eqn:Hk; [destruct (RunOnce cmd) eqn:Hro|].
  - replace (set_Once cmd true) with (migrate cmd)
      by (unfold migrate; by rewrite Hro).
    match goal with
    | |- context [range_migrate v keys ?w' ?m'] =>
        destruct (IH w' m') as [[H Hin]|[H Hnin]]
    end; rewrite H;
      (destruct (decide (k = key)) as [->|Hne];
       [rewrite lookup_insert_eq, Hk|rewrite lookup_insert_ne by done]).
    + left. simpl. rewrite migrate_idemp. split; [done|list_elem_solver].
    + left. split; [done|list_elem_solver].
    + left. split; [done|list_elem_solver].
    + right. split; [done|list_elem_solver].
  - destruct (IH w m) as [[H Hin]|[H Hnin]]; rewrite H.
    + left. split; [done|list_elem_solver].
    + destruct (decide (k = key)) as [->|Hne].
      * left. rewrite Hk. simpl. unfold migrate. rewrite Hro.
        split; [done|list_elem_solver].
      * right. split; [done|list_elem_solver].
  - destruct (IH w m) as [[H Hin]|[H Hnin]]; rewrite H.
    + left. split; [done|list_elem_solver].
    + destruct (decide (k = key)) as [->|Hne].
      * left. rewrite Hk. split; [done|list_elem_solver].
      * right. split; [done|list_elem_solver].
Qed.

(** The warning that the loop of case "0.3" leaves is assigned, not
    accumulated: it is the one text, however many commands are visited. *)
Lemma range_migrate_warning_cases (v : string) (keys : list string)
    (w : string) (m : gmap string Command) :
  (range_migrate v keys w m).1 = deprecation_warning v
  \/ (range_migrate v keys w m).1 = w.
Proof.
  revert w m. induction keys as [|key keys IH]; intros w m; simpl; [by right|].
  destruct (m !! key) as [cmd|]; [|apply IH].
  destruct (RunOnce cmd); [|apply IH].
  left.
  match goal with
  | |- context [range_migrate v keys ?w' ?m'] => destruct (IH w' m') as [H|H]
  end; exact H.
Qed.

Lemma range_migrate_warning_none (v : string) (keys : list string)
    (w : string) (m : gmap string Command) :
  map_Forall (fun _ cmd => RunOnce cmd = false) m ->
  (range_migrate v keys w m).1 = w.
Proof.
  intros Hm. induction keys as [|key keys IH]; simpl; [done|].
  destruct (m !! key) as [cmd|] eqn:Hk; [|done].
  by rewrite (Hm _ _ Hk).
Qed.

Lemma range_migrate_warning_some (v : string) (keys : list string)
    (w : string) (m : gmap string Command) (key : string) (cmd : Command) :
  key ∈ keys -> m !! key = Some cmd -> RunOnce cmd = true ->
  (range_migrate v keys w m).1 = deprecation_warning v.
Proof.
  intros Hin Hk Hro. induction Hin as [key keys|key key' keys _ IH]; simpl.
  - rewrite Hk, Hro.
    match goal with
    | |- context [range_migrate v keys ?w' ?m'] =>
        destruct (range_migrate_warning_cases v keys w' m') as [H|H]
    end; exact H.
  - destruct (m !! key') as [cmd'|]; [|by apply IH].
    destruct (RunOnce cmd'); [|by apply IH].
    match goal with
    | |- context [range_migrate v keys ?w' ?m'] =>
        destruct (range_migrate_warning_cases v keys w' m') as [H|H]
    end; exact H.
Qed.

Lemma deprecation_warning_nonempty (v : string) :
  String.eqb (deprecation_warning v) "" = false.
Proof. done. Qed.

Section VersionGateFacts.

Variable range_order : forall V : Type, nat -> gmap string V -> list string.
Variable yaml_Unmarshal : string -> result Supfile.

(** A [range] loop visits every key of the map once, in some order. *)
Hypothesis range_visits_keys :
  forall (V : Type) (n : nat) (m : gmap string V),
    range_order V n m ≡ₚ (map_to_list m).*1.

Local Abbreviation NewSupfile' := (NewSupfile range_order yaml_Unmarshal).

Lemma range_order_elem (V : Type) (n : nat) (m : gmap string V)
    (k : string) (x : V) :
  m !! k = Some x -> k ∈ range_order V n m.
Proof.
  intros Hk. rewrite range_visits_keys.
  apply list_elem_of_fmap. exists (k, x). split; [done|].
  by apply elem_of_map_to_list.
Qed.

(** Case "0.3" accepts every document: it migrates the commands and
    writes the warning once if some command had the deprecated flag. *)
Lemma case_0_3_spec (conf : Supfile) :
  exists written,
    case_0_3 range_order conf
    = (Ok (set_cmds conf (migrate <$> cmds (sup_Commands conf))), written)
    /\ (map_Forall (fun _ cmd => RunOnce cmd = false) (cmds (sup_Commands conf)) ->
        written = [])
    /\ ((exists key cmd, cmds (sup_Commands conf) !! key = Some cmd
                         /\ RunOnce cmd = true) ->
        written = [deprecation_warning (Version conf) +:+ newline]).
Proof.
  unfold case_0_3, case_0_4.
  set (m := cmds (sup_Commands conf)).
  set (keys := range_order Command 3 m).
  assert ((range_migrate (Version conf) keys "" m).2 = migrate <$> m) as Hm.
  { apply map_eq. intros k. rewrite lookup_fmap.
    destruct (range_migrate_lookup (Version conf) keys "" m k)
      as [[H _]|[H Hnin]]; [done|].
    rewrite H. destruct (m !! k) as [cmd|] eqn:Hk; [|done].
    exfalso. apply Hnin. by eapply range_order_elem. }
  pose proof (range_migrate_warning_none (Version conf) keys "" m) as Hnone.
  pose proof (range_migrate_warning_some (Version conf) keys "" m) as Hsome.
  destruct (range_migrate (Version conf) keys "" m) as [warning m'].
  simpl in Hm, Hnone, Hsome. subst m'.
  eexists. split; [reflexivity|]. split.
  - intros Hall. by rewrite (Hnone Hall).
  - intros (key & cmd & Hk & Hro).
    rewrite (Hsome key cmd) by (done || by eapply range_order_elem).
    by rewrite deprecation_warning_nonempty, app_nil_r.
Qed.

Lemma case_0_2_spec (conf : Supfile) :
  (exists msg, case_0_2 range_order conf = (Err (ErrMustUpdate msg), []))
  \/ case_0_2 range_order conf = case_0_3 range_order conf.
Proof.
  unfold case_0_2.
  destruct (range_new_flags _ _ _) as [e|] eqn:Hc.
  { left. apply range_new_flags_kind in Hc as [msg ->]. eauto. }
  destruct (range_inventory _ _ _) as [e|] eqn:Hn; [|by right].
  left. apply range_inventory_kind in Hn as [msg ->]. eauto.
Qed.

Lemma case_0_1_spec (conf : Supfile) :
  (exists msg, case_0_1 range_order conf = (Err (ErrMustUpdate msg), []))
  \/ case_0_1 range_order conf = case_0_3 range_order conf.
Proof.
  unfold case_0_1.
  destruct (range_run_once _ _ _) as [e|] eqn:Hc.
  { left. apply range_run_once_kind in Hc as ->. eauto. }
  apply case_0_2_spec.
Qed.

(** Up to version 0.3 the switch either asks for an update or ends in
    case "0.3" on the document with its version filled in. *)
Lemma switch_Version_old (conf : Supfile) :
  Version conf ∈ [""; "0.1"; "0.2"; "0.3"] ->
  (exists msg, switch_Version range_order conf = (Err (ErrMustUpdate msg), []))
  \/ switch_Version range_order conf
     = case_0_3 range_order (with_default_version conf).
Proof.
  intros Hv. unfold switch_Version, with_default_version, declared_version.
  assert (forall c : Supfile, set_Version c (Version c) = c) as Hid
    by (by intros []).
  repeat (apply elem_of_cons in Hv as [Hv|Hv]); [| | | |by apply elem_of_nil in Hv];
    rewrite Hv; simpl; rewrite <- ?Hv, ?Hid.
  - apply case_0_1_spec.
  - apply case_0_1_spec.
  - apply case_0_2_spec.
  - by right.
Qed.


(** C2, as the code has it.  A document of declared version at most 0.3
    that passes the rules of the earlier versions loads; each command
    with the deprecated run-once flag gets its once flag set; one
    warning is written to the standard error stream if at least one
    command had the flag, whatever their number, and none otherwise. *)
Theorem NewSupfile_migrates_run_once :
  forall (data : string) (conf : Supfile),
    yaml_Unmarshal data = Ok conf ->
    Version conf ∈ [""; "0.1"; "0.2"; "0.3"] ->
    passes_earlier_rules conf ->
    exists (conf' : Supfile) (written : list string),
      NewSupfile' data = (Ok conf', written)
      /\ conf' = set_cmds (with_default_version conf)
                   (migrate <$> cmds (sup_Commands conf))
      /\ (forall key cmd,
             cmds (sup_Commands conf) !! key = Some cmd ->
             RunOnce cmd = true ->
             exists cmd', cmds (sup_Commands conf') !! key = Some cmd'
                          /\ Once cmd' = true)
      /\ (map_Forall (fun _ cmd => RunOnce cmd = false) (cmds (sup_Commands conf)) ->
          written = [])
      /\ ((exists key cmd, cmds (sup_Commands conf) !! key = Some cmd
                           /\ RunOnce cmd = true) ->
          written = [deprecation_warning (declared_version conf) +:+ newline]).
Proof.
  intros data conf Hy Hv [H01 H02]. unfold NewSupfile. rewrite Hy.
  assert (switch_Version range_order conf
          = case_0_3 range_order (with_default_version conf)) as ->.
  { unfold switch_Version, with_default_version, declared_version.
    assert (forall c : Supfile, set_Version c (Version c) = c) as Hid
      by (by intros []).
    repeat (apply elem_of_cons in Hv as [Hv|Hv]);
      [| | | |by apply elem_of_nil in Hv].
    - destruct (H02 ltac:(rewrite Hv; list_elem_solver)) as [Hc Hn].
      specialize (H01 ltac:(rewrite Hv; list_elem_solver)).
      rewrite Hv. simpl. unfold case_0_1, case_0_2. simpl.
      by rewrite range_run_once_none, range_new_flags_none,
        range_inventory_none.
    - destruct (H02 ltac:(rewrite Hv; list_elem_solver)) as [Hc Hn].
      specialize (H01 ltac:(rewrite Hv; list_elem_solver)).
      rewrite Hv. simpl. rewrite <- Hv, Hid. unfold case_0_1, case_0_2.
      by rewrite range_run_once_none, range_new_flags_none,
        range_inventory_none.
    - destruct (H02 ltac:(rewrite Hv; list_elem_solver)) as [Hc Hn].
      rewrite Hv. simpl. rewrite <- Hv, Hid. unfold case_0_2.
      by rewrite range_new_flags_none, range_inventory_none.
    - rewrite Hv. simpl. by rewrite <- Hv, Hid. }
  destruct (case_0_3_spec (with_default_version conf))
    as (written & Hw & Hnone & Hsome).
  eexists _, written. split; [exact Hw|]. split; [done|].
  split; [|split].
  - intros key cmd Hk Hro. exists (migrate cmd). simpl.
    rewrite lookup_fmap, Hk. split; [done|by apply migrate_Once].
  - exact Hnone.
  - exact Hsome.
Qed.

(** C4.  A document of declared version 0.2 or lower (the absent version
    included) with a command whose once flag or run-locally flag is set
    or whose serial limit is not zero, or with a host group that declares
    an inventory command, fails with [ErrMustUpdate]; the same document
    under version 0.4 loads. *)
Theorem NewSupfile_rejects_new_features_at_0_2 :
  forall (data data' : string) (conf : Supfile),
    yaml_Unmarshal data = Ok conf ->
    yaml_Unmarshal data' = Ok (set_Version conf "0.4") ->
    Version conf ∈ [""; "0.1"; "0.2"] ->
    rejected_at_0_2 conf ->
    (exists msg, NewSupfile' data = (Err (ErrMustUpdate msg), []))
    /\ NewSupfile' data' = (Ok (set_Version conf "0.4"), []).
Proof.
  intros data data' conf Hy Hy' Hv Hrej. unfold NewSupfile.
  rewrite Hy, Hy'. split; [|done].
  assert (forall c : Supfile,
             rejected_at_0_2 c ->
             exists msg, case_0_2 range_order c = (Err (ErrMustUpdate msg), []))
    as H02.
  { intros c [(key & cmd & Hk & Hflag)|(key & network & Hk & Hinv)];
      unfold case_0_2.
    - destruct (range_new_flags_some (Version c) (cmds (sup_Commands c))
                  (range_order Command 1 (cmds (sup_Commands c))) key cmd)
        as [e He]; [by eapply range_order_elem|done..|].
      rewrite He. apply range_new_flags_kind in He as [msg ->]. eauto.
    - destruct (range_new_flags _ _ _) as [e|] eqn:Hc.
      { apply range_new_flags_kind in Hc as [msg ->]. eauto. }
      destruct (range_inventory_some (Version c) (nets (sup_Networks c))
                  (range_order Network 2 (nets (sup_Networks c))) key network)
        as [e He]; [by eapply range_order_elem|done..|].
      rewrite He. apply range_inventory_kind in He as [msg ->]. eauto. }
  assert (forall c : Supfile,
             rejected_at_0_2 c ->
             exists msg, case_0_1 range_order c = (Err (ErrMustUpdate msg), []))
    as H01.
  { intros c Hc. unfold case_0_1.
    destruct (range_run_once _ _ _) as [e|] eqn:He; [|by apply H02].
    apply range_run_once_kind in He as ->. eauto. }
  unfold switch_Version.
  repeat (apply elem_of_cons in Hv as [Hv|Hv]); [| | |by apply elem_of_nil in Hv];
    rewrite Hv; simpl.
  - apply H01. by destruct conf.
  - by apply H01.
  - by apply H02.
Qed.

(** C7.  A document whose declared version is none of the empty string,
    0.1, 0.2, 0.3, 0.4 and 0.5 fails with
    [ErrUnsupportedSupfileVersion], an error of another kind than
    [ErrMustUpdate]. *)
Theorem NewSupfile_unsupported_version :
  forall (data : string) (conf : Supfile),
    yaml_Unmarshal data = Ok conf ->
    Version conf ∉ [""; "0.1"; "0.2"; "0.3"; "0.4"; "0.5"] ->
    exists e,
      NewSupfile' data = (Err e, [])
      /\ e = ErrUnsupportedSupfileVersion
               ("unsupported Supfile version " +:+ Version conf)
      /\ is_ErrMustUpdate e = false
      /\ forall msg, e <> ErrMustUpdate msg.
Proof.
  intros data conf Hy Hv. unfold NewSupfile. rewrite Hy.
  eexists. split; [|split; [reflexivity|split; [done|done]]].
  unfold switch_Version.
  repeat match goal with
         | |- context [String.eqb (Version conf) ?s] =>
             destruct (String.eqb_spec (Version conf) s) as [He|_];
             [exfalso; apply Hv; rewrite He; list_elem_solver|]
         end.
  done.
Qed.

End VersionGateFacts.

(** ** The version switch on sample documents *)

Lemma listed_order_visits_keys (V : Type) (n : nat) (m : gmap string V) :
  listed_order V n m ≡ₚ (map_to_list m).*1.
Proof. done. Qed.



(** Two commands with [run_once: true] under version 0.3: one warning is
    written, not two. *)
Lemma NewSupfile_two_run_once_one_warning :
  run_once_count
    (sample_supfile "0.3"
       [sample_command "build" false true; sample_command "deploy" false true])
  = 2
  /\ snd (NewSupfile listed_order
            (fun _ => Ok (sample_supfile "0.3"
                            [sample_command "build" false true;
                             sample_command "deploy" false true]))
            "data")
     = [deprecation_warning "0.3" +:+ newline]
  /\ length (snd (NewSupfile listed_order
                    (fun _ => Ok (sample_supfile "0.3"
                                    [sample_command "build" false true;
                                     sample_command "deploy" false true]))
                    "data"))
     <> run_once_count
          (sample_supfile "0.3"
             [sample_command "build" false true;
              sample_command "deploy" false true]).
Proof.
  split; [vm_compute; reflexivity|]. split; [vm_compute; reflexivity|].
  vm_compute. discriminate.
Qed.

(** ** The environment chain *)

Lemma script_at_shift (exports : string) (v : EnvVar) (raw : list EnvVar)
    (j : nat) :
  script_at (exports +:+ EnvVar_AsExport v) raw j
  = script_at exports (v :: raw) (S j).
Proof.
  unfold script_at. simpl. destruct (raw !! j) as [vj|]; [|done].
  unfold script_of. by rewrite !str_app_assoc.
Qed.

Lemma script_at_0 (exports : string) (v : EnvVar) (raw : list EnvVar) :
  script_at exports (v :: raw) 0
  = (exports +:+ EnvVar_AsExport v) +:+ "echo -n " +:+ Value v +:+ ";".
Proof.
  unfold script_at, script_of. simpl.
  by rewrite str_app_nil_r, !str_app_assoc.
Qed.

Lemma elem_of_take_in (n : nat) (e : EnvList) (p : loc) :
  p ∈ take n e -> p ∈ e.
Proof.
  intros (i & Hi & _)%elem_of_take. apply list_elem_of_lookup. eauto.
Qed.

Lemma points_to_insert (h : store) (e : EnvList) (raw : list EnvVar)
    (p : loc) (x : EnvVar) :
  p ∉ e -> points_to h e raw -> points_to (<[p := x]> h) e raw.
Proof.
  unfold points_to. intros Hp Hpt. induction Hpt as [|q v e raw Hq _ IH];
    constructor.
  - rewrite lookup_insert_ne; [done|]. intros ->. apply Hp. by left.
  - apply IH. intros Hin. apply Hp. by right.
Qed.

Section EnvironmentChainFacts.

Variable os_Getwd : nat -> result string.
Variable bash_c : nat -> string -> string -> result string.

Local Abbreviation loop := (ResolveValues_from os_Getwd bash_c).

(** After [k] entries resolved without error, the loop stands at entry
    [k] with the exports of the first [k] raw values, the first [k]
    variables overwritten and the rest of the store as it was. *)
Lemma ResolveValues_from_steps (k : nat) :
  forall (e : EnvList) (raw : list EnvVar) (i : nat) (exports : string)
         (h : store) (ran : list string) (outs : nat -> string),
    NoDup e -> points_to h e raw -> k <= length e ->
    (forall j v, j < k -> raw !! j = Some v ->
       exists cwd, os_Getwd (i + j) = Ok cwd
                   /\ bash_c (i + j) cwd (script_at exports raw j) = Ok (outs j)) ->
    exists h' : store,
      loop i e exports h ran
      = loop (i + k) (drop k e) (exports +:+ exports_of (take k raw)) h'
          (ran ++ (script_at exports raw <$> seq 0 k))%list
      /\ (forall j p v, j < k -> e !! j = Some p -> raw !! j = Some v ->
            h' !! p = Some (mkEnvVar (Key v) (outs j)))
      /\ (forall p, p ∉ take k e -> h' !! p = h !! p).
Proof.
  induction k as [|k IH]; intros e raw i exports h ran outs Hnd Hpt Hk Hrun.
  { exists h. rewrite Nat.add_0_r, drop_0, take_0. simpl.
    rewrite str_app_nil_r, app_nil_r. split; [done|]. split; [|done].
    intros; lia. }
  destruct Hpt as [|p v e raw Hp Hpt]; [simpl in Hk; lia|].
  simpl in Hk. apply NoDup_cons in Hnd as [Hnotin Hnd].
  destruct (Hrun 0 v) as (cwd & Hwd & Hout); [lia|done|].
  rewrite Nat.add_0_r in Hwd, Hout. rewrite script_at_0 in Hout.
  destruct (IH e raw (S i) (exports +:+ EnvVar_AsExport v)
              (<[p := mkEnvVar (Key v) (outs 0)]> h)
              (ran ++ [script_at exports (v :: raw) 0])%list
              (fun j => outs (S j)))
    as (h' & Hloop & Hnew & Hold).
  - done.
  - by apply points_to_insert.
  - lia.
  - intros j vj Hj Hvj. destruct (Hrun (S j) vj) as (cwd' & Hwd' & Hout');
      [lia|done|].
    exists cwd'. rewrite script_at_shift.
    by replace (S i + j) with (i + S j) by lia.
  - exists h'. split; [|split].
    + simpl loop at 1. rewrite Hp, Hwd, Hout. rewrite script_at_0 in Hloop.
      rewrite Hloop. simpl drop. simpl take. simpl exports_of.
      replace (S i + k) with (i + S k) by lia.
      rewrite !str_app_assoc. f_equal.
      rewrite <- app_assoc. f_equal. simpl. f_equal.
      * by rewrite script_at_0, !str_app_assoc.
      * rewrite <- seq_shift, <- list_fmap_compose. apply list_fmap_ext.
        intros _ j _. simpl. apply script_at_shift.
    + intros [|j] q vj Hj Hq Hvj; simpl in Hq, Hvj.
      * injection Hq as <-. injection Hvj as <-.
        rewrite Hold.
        -- by rewrite lookup_insert_eq.
        -- intros Hin. apply Hnotin. by eapply elem_of_take_in.
      * apply (Hnew j q vj); [lia|done..].
    + intros q Hq. simpl in Hq. rewrite Hold.
      * rewrite lookup_insert_ne; [done|]. intros ->. apply Hq. by left.
      * intros Hin. apply Hq. by right.
Qed.

Local Abbreviation ResolveValues' := (ResolveValues os_Getwd bash_c).

Lemma ResolveValues_loop (e : EnvList) (h : store) :
  ResolveValues' e h = loop 0 e "" h [].
Proof. by destruct e. Qed.

Lemma script_for_unfold (raw : list EnvVar) (i : nat) (v : EnvVar) :
  raw !! i = Some v ->
  script_for raw i
  = exports_of (take (S i) raw) +:+ "echo -n " +:+ Value v +:+ ";".
Proof. unfold script_for, script_at. by intros ->. Qed.

(** Every entry resolves: the scripts are those of the raw values and
    each variable holds the output of its script. *)
Lemma ResolveValues_all (e : EnvList) (h : store) (raw : list EnvVar)
    (outs : nat -> string) :
  NoDup e -> points_to h e raw ->
  (forall i v, raw !! i = Some v ->
     exists cwd, os_Getwd i = Ok cwd
                 /\ bash_c i cwd (script_for raw i) = Ok (outs i)) ->
  returned (ResolveValues' e h) = Ok ()
  /\ scripts_run (ResolveValues' e h) = script_for raw <$> seq 0 (length raw)
  /\ (forall i p v, e !! i = Some p -> raw !! i = Some v ->
        store_after (ResolveValues' e h) !! p
        = Some (mkEnvVar (Key v) (outs i))).
Proof.
  intros Hnd Hpt Hrun. rewrite ResolveValues_loop.
  pose proof (Forall2_length _ _ _ Hpt) as Hlen.
  destruct (ResolveValues_from_steps (length e) e raw 0 "" h [] outs)
    as (h' & Hloop & Hnew & _); [done..|by intros j v _; apply Hrun|].
  rewrite Hloop, drop_all. simpl. rewrite Hlen. split; [done|].
  split; [done|].
  intros i p v Hp Hv. apply (Hnew i p v); [|done..].
  rewrite Hlen. by eapply lookup_lt_Some.
Qed.

(** C3.  Over a list without aliasing, the script run for entry [i] is
    the export statements of the entries 0 to [i], built from their raw
    values, followed by [echo -n] of the raw value of entry [i]; the
    value of entry [i] becomes the captured output.  With a shell that
    answers the two scripts of the chain [FOO=bar, BAZ=$FOO-baz] as bash
    does, FOO resolves to bar and BAZ to bar-baz. *)
Theorem ResolveValues_scripts_from_raw_values :
  (forall (e : EnvList) (h : store) (raw : list EnvVar) (outs : nat -> string),
      NoDup e -> points_to h e raw ->
      (forall i v, raw !! i = Some v ->
         exists cwd, os_Getwd i = Ok cwd
                     /\ bash_c i cwd (script_for raw i) = Ok (outs i)) ->
      returned (ResolveValues' e h) = Ok ()
      /\ scripts_run (ResolveValues' e h) = script_for raw <$> seq 0 (length raw)
      /\ (forall i v, raw !! i = Some v ->
            script_for raw i
            = exports_of (take (S i) raw) +:+ "echo -n " +:+ Value v +:+ ";")
      /\ (forall i p v, e !! i = Some p -> raw !! i = Some v ->
            store_after (ResolveValues' e h) !! p
            = Some (mkEnvVar (Key v) (outs i))))
  /\ (forall cwd0 cwd1 : string,
      os_Getwd 0 = Ok cwd0 -> os_Getwd 1 = Ok cwd1 ->
      bash_c 0 cwd0
        ("export FOO=" +:+ dquote +:+ "bar" +:+ dquote +:+ ";echo -n bar;")
      = Ok "bar" ->
      bash_c 1 cwd1
        ("export FOO=" +:+ dquote +:+ "bar" +:+ dquote +:+ ";export BAZ="
           +:+ dquote +:+ "$FOO-baz" +:+ dquote +:+ ";echo -n $FOO-baz;")
      = Ok "bar-baz" ->
      returned (ResolveValues' sample_chain sample_store) = Ok ()
      /\ store_after (ResolveValues' sample_chain sample_store) !! 1
         = Some (mkEnvVar "FOO" "bar")
      /\ store_after (ResolveValues' sample_chain sample_store) !! 2
         = Some (mkEnvVar "BAZ" "bar-baz")).
Proof.
  split.
  - intros e h raw outs Hnd Hpt Hrun.
    destruct (ResolveValues_all e h raw outs Hnd Hpt Hrun) as (Hr & Hs & Hh).
    split; [done|]. split; [done|]. split; [|done].
    intros i v. apply script_for_unfold.
  - intros cwd0 cwd1 Hwd0 Hwd1 Hfoo Hbaz.
    destruct (ResolveValues_all sample_chain sample_store sample_raw
                (fun i => match i with 0 => "bar" | _ => "bar-baz" end))
      as (Hr & _ & Hh).
    + unfold sample_chain. repeat constructor; rewrite ?elem_of_cons, ?elem_of_nil;
        intuition discriminate.
    + unfold points_to, sample_chain, sample_raw. by repeat constructor.
    + intros [|[|i]] v Hv; simpl in Hv; [| |done]; injection Hv as <-.
      * exists cwd0. split; [done|exact Hfoo].
      * exists cwd1. split; [done|exact Hbaz].
    + split; [done|]. split.
      * by apply (Hh 0 1 (mkEnvVar "FOO" "bar")).
      * by apply (Hh 1 2 (mkEnvVar "BAZ" "$FOO-baz")).
Qed.

(** C9.  When the subprocess of entry [k] fails, the call returns at
    once with the error wrapped with the key of entry [k]; the scripts
    run are those of the entries 0 to [k], each once; the entries before
    [k] hold their resolved values and the entries from [k] on keep
    their raw values. *)
Theorem ResolveValues_failure_keeps_partial_result :
  forall (e : EnvList) (h : store) (raw : list EnvVar) (outs : nat -> string)
         (k : nat) (v : EnvVar) (cwd : string) (err : error),
    NoDup e -> points_to h e raw ->
    raw !! k = Some v ->
    (forall i vi, i < k -> raw !! i = Some vi ->
       exists cwd', os_Getwd i = Ok cwd'
                    /\ bash_c i cwd' (script_for raw i) = Ok (outs i)) ->
    os_Getwd k = Ok cwd ->
    bash_c k cwd (script_for raw k) = Err err ->
    returned (ResolveValues' e h)
    = Err (Wrapf err ("resolving env var " +:+ Key v +:+ " failed"))
    /\ scripts_run (ResolveValues' e h) = script_for raw <$> seq 0 (S k)
    /\ (forall i p vi, i < k -> e !! i = Some p -> raw !! i = Some vi ->
          store_after (ResolveValues' e h) !! p
          = Some (mkEnvVar (Key vi) (outs i)))
    /\ (forall i p vi, k <= i -> e !! i = Some p -> raw !! i = Some vi ->
          store_after (ResolveValues' e h) !! p = Some vi).
Proof.
  intros e h raw outs k v cwd err Hnd Hpt Hv Hrun Hwd Hfail.
  rewrite ResolveValues_loop. rewrite seq_S, fmap_app. simpl "+".
  change (script_for raw <$> seq 0 k) with (script_at "" raw <$> seq 0 k).
  pose proof (Forall2_length _ _ _ Hpt) as Hlen.
  pose proof (lookup_lt_Some _ _ _ Hv) as Hk.
  destruct (ResolveValues_from_steps k e raw 0 "" h [] outs)
    as (h' & Hloop & Hnew & Hold); [done|done|lia|done|].
  rewrite Hloop. clear Hloop.
  remember (script_at "" raw <$> seq 0 k) as before eqn:Hbefore.
  destruct (lookup_lt_is_Some_2 e k) as [p Hp]; [lia|].
  rewrite (drop_S _ _ _ Hp). simpl.
  assert (forall i q vi, k <= i -> e !! i = Some q -> raw !! i = Some vi ->
            h' !! q = Some vi) as Hrest.
  { intros i q vi Hi Hq Hvi. rewrite Hold.
    - exact (Forall2_lookup_lr _ _ _ _ _ _ Hpt Hq Hvi).
    - intros (j & Hj & Hlt)%elem_of_take.
      assert (i = j) by (eapply NoDup_lookup; eauto). lia. }
  rewrite (Hrest k p v) by done.
  assert ((("" +:+ exports_of (take k raw)) +:+ EnvVar_AsExport v)
            +:+ "echo -n " +:+ Value v +:+ ";" = script_for raw k) as Hscript.
  { unfold script_for, script_at. rewrite Hv. unfold script_of.
    rewrite (take_S_r _ _ _ Hv). rewrite !app_nil_l. f_equal.
    clear. induction (take k raw) as [|x l IH]; simpl.
    - by rewrite app_nil_l, str_app_nil_r.
    - by rewrite str_app_assoc, IH. }
  rewrite Hscript, Hwd, Hfail. simpl.
  split; [done|]. split.
  - done.
  - split; [exact Hnew|exact Hrest].
Qed.

End EnvironmentChainFacts.

(** ** The named collections *)


Section CollectionsFacts.

Variable node : Type.
Variable unmarshal_MapSlice : node -> result (list MapItem).
Variable unmarshal_nets : node -> result (gmap string Network).
Variable unmarshal_cmds : node -> result (gmap string Command).
Variable unmarshal_targets : node -> result (gmap string (list string)).

(** The entries of a node as the document declares them, in order. *)
Variable declared : node -> list MapItem.

(** [yaml.MapSlice] keeps the order of the document. *)
Hypothesis MapSlice_keeps_order :
  forall (y : node) (items : list MapItem),
    unmarshal_MapSlice y = Ok items -> items = declared y.


End CollectionsFacts.

(** ** [Set] builds lists without aliasing *)

Lemma Set_scan_found (h : store) (e : EnvList) (key : string) :
  (forall p, p ∈ e -> is_Some (h !! p)) ->
  Set_scan h e key = Ok None
  \/ exists p, Set_scan h e key = Ok (Some p) /\ p ∈ e.
Proof.
  induction e as [|q e IH]; intros Hall; simpl; [by left|].
  destruct (Hall q) as [v Hq]; [by left|].
  unfold load. rewrite Hq. simpl.
  destruct (String.eqb (Key v) key).
  - right. exists q. split; [done|by left].
  - destruct IH as [H|(p & H & Hin)].
    + intros p Hp. apply Hall. by right.
    + by left.
    + right. exists p. split; [done|by right].
Qed.

Lemma EnvList_Set_unaliased (key value : string) (e : EnvList) (h : store) :
  unaliased (e, h) ->
  exists e' h', EnvList_Set key value (e, h) = Ok (e', h') /\ unaliased (e', h').
Proof.
  intros [Hnd Hall]. simpl in Hnd, Hall. unfold EnvList_Set.
  destruct (Set_scan_found h e key Hall) as [->|(p & -> & Hin)]; simpl.
  - eexists _, _. split; [done|]. split; simpl.
    + apply NoDup_app. split; [done|]. split; [|apply NoDup_singleton].
      intros p Hp ->%list_elem_of_singleton.
      destruct (Hall _ Hp) as [v Hv].
      apply (is_fresh (dom h)). apply elem_of_dom. eauto.
    + intros p [Hp| ->%list_elem_of_singleton]%elem_of_app.
      * destruct (decide (p = fresh (dom h))) as [->|Hne].
        -- rewrite lookup_insert_eq. eauto.
        -- rewrite lookup_insert_ne by done. by apply Hall.
      * rewrite lookup_insert_eq. eauto.
  - destruct (Hall p Hin) as [v Hv]. unfold load. rewrite Hv. simpl.
    eexists _, _. split; [done|]. split; simpl; [done|].
    intros q Hq. destruct (decide (q = p)) as [->|Hne].
    + rewrite lookup_insert_eq. eauto.
    + rewrite lookup_insert_ne by done. by apply Hall.
Qed.

(** With one variable at two positions, the second script exports the
    output of the first, not the raw value. *)
Example ResolveValues_aliased_entries :
  scripts_run (ResolveValues (fun _ => Ok "/srv") (fun _ _ _ => Ok "X")
                 aliased_chain aliased_store)
  = ["export FOO=" +:+ dquote +:+ "bar" +:+ dquote +:+ ";echo -n bar;";
     "export FOO=" +:+ dquote +:+ "bar" +:+ dquote +:+ ";export FOO="
       +:+ dquote +:+ "X" +:+ dquote +:+ ";echo -n X;"].
Proof. vm_compute. reflexivity. Qed.

Example ResolveValues_sample_chain :
  store_after (ResolveValues (fun _ => Ok "/srv") sample_bash
                 sample_chain sample_store)
  = <[1 := mkEnvVar "FOO" "bar"]> (<[2 := mkEnvVar "BAZ" "bar-baz"]> ∅).
Proof. vm_compute. reflexivity. Qed.

Example ParseInventory_sample :
  ParseInventory [] (fun _ _ => Ok (terminated ["host1"; "# comment"; ""; "  host2 "]))
    ∅ sample_network
  = Ok [Host_of_address "host1"; Host_of_address "host2"].
Proof. vm_compute. reflexivity. Qed.

Example TrimSpace_unicode :
  strings_TrimSpace
    (String "194" (String "160" (String "009" ("web-1"
       +:+ String "226" (String "128" (String "168" newline))))))
  = "web-1".
Proof. vm_compute. reflexivity. Qed.

(** ** The theorems at sample inputs *)

Lemma NewSupfile_migrates_run_once_witness :
  (Version doc_0_3 ∈ [""; "0.1"; "0.2"; "0.3"]
   /\ passes_earlier_rules doc_0_3)
  /\ exists (conf' : Supfile) (cmd' : Command),
       NewSupfile listed_order (fun _ => Ok doc_0_3) "data"
       = (Ok conf', [deprecation_warning "0.3" +:+ newline])
       /\ cmds (sup_Commands conf') !! "deploy" = Some cmd'
       /\ Once cmd' = true.
Proof.
  assert (Version doc_0_3 ∈ [""; "0.1"; "0.2"; "0.3"]) as Hv
    by (repeat constructor).
  assert (passes_earlier_rules doc_0_3) as Hpass.
  { split; intros H; exfalso; revert H; simpl;
      rewrite ?elem_of_cons, elem_of_nil; intuition discriminate. }
  split; [by split|].
  destruct (NewSupfile_migrates_run_once listed_order (fun _ => Ok doc_0_3)
              listed_order_visits_keys "data" doc_0_3 eq_refl Hv Hpass)
    as (conf' & written & Hnew & _ & Hmig & _ & Hwarn).
  destruct (Hmig "deploy" (sample_command "deploy" false true))
    as (cmd' & Hk & Honce); [vm_compute; reflexivity|reflexivity|].
  exists conf', cmd'. split; [|by split].
  rewrite Hnew. f_equal. apply Hwarn.
  exists "deploy", (sample_command "deploy" false true).
  split; [vm_compute; reflexivity|reflexivity].
Defined.

Lemma NewSupfile_rejects_new_features_at_0_2_witness :
  (sample_decoder doc_0_2 "0.4" "old" = Ok doc_0_2
   /\ sample_decoder doc_0_2 "0.4" "new" = Ok (set_Version doc_0_2 "0.4")
   /\ Version doc_0_2 ∈ [""; "0.1"; "0.2"]
   /\ rejected_at_0_2 doc_0_2)
  /\ (exists msg,
         NewSupfile listed_order (sample_decoder doc_0_2 "0.4") "old"
         = (Err (ErrMustUpdate msg), []))
  /\ NewSupfile listed_order (sample_decoder doc_0_2 "0.4") "new"
     = (Ok (set_Version doc_0_2 "0.4"), []).
Proof.
  assert (Version doc_0_2 ∈ [""; "0.1"; "0.2"]) as Hv by (repeat constructor).
  assert (rejected_at_0_2 doc_0_2) as Hrej.
  { left. exists "deploy", (sample_command "deploy" true false).
    split; [vm_compute; reflexivity|left; reflexivity]. }
  split; [by repeat split|].
  apply (NewSupfile_rejects_new_features_at_0_2 listed_order
           (sample_decoder doc_0_2 "0.4") listed_order_visits_keys
           "old" "new" doc_0_2 eq_refl eq_refl Hv Hrej).
Defined.

Lemma NewSupfile_unsupported_version_witness :
  (Version doc_9_9 ∉ [""; "0.1"; "0.2"; "0.3"; "0.4"; "0.5"])
  /\ exists e,
       NewSupfile listed_order (fun _ => Ok doc_9_9) "data" = (Err e, [])
       /\ e = ErrUnsupportedSupfileVersion "unsupported Supfile version 9.9"
       /\ is_ErrMustUpdate e = false.
Proof.
  assert (Version doc_9_9 ∉ [""; "0.1"; "0.2"; "0.3"; "0.4"; "0.5"]) as Hv.
  { simpl. rewrite !elem_of_cons, elem_of_nil. intuition discriminate. }
  split; [exact Hv|].
  destruct (NewSupfile_unsupported_version listed_order (fun _ => Ok doc_9_9)
              "data" doc_9_9 eq_refl Hv) as (e & Hnew & He & Hkind & _).
  exists e. by repeat split.
Defined.




Lemma ParseInventory_drops_unterminated_line_witness :
  (Inventory sample_network <> ""
   /\ EnvList_Slice ∅ (net_Env sample_network) = Ok []
   /\ Forall (fun l => str_mem "010" l = false) ["host1"]
   /\ str_mem "010" "host2" = false)
  /\ ParseInventory [] (fun _ _ => Ok (terminated ["host1"] +:+ "host2"))
       ∅ sample_network
     = parse_output (terminated ["host1"]).
Proof.
  assert (Forall (fun l => str_mem "010" l = false) ["host1"]) as Hlines
    by (repeat constructor).
  split; [by repeat split|].
  apply (proj1 (ParseInventory_drops_unterminated_line []
                  (fun _ _ => Ok (terminated ["host1"] +:+ "host2")))
           ∅ sample_network [] ["host1"] "host2");
    [discriminate|reflexivity|exact Hlines|reflexivity|reflexivity].
Defined.

Lemma ResolveValues_scripts_from_raw_values_witness :
  ((fun _ : nat => Ok "/srv") 0 = Ok "/srv"
   /\ sample_bash 0 "/srv"
        ("export FOO=" +:+ dquote +:+ "bar" +:+ dquote +:+ ";echo -n bar;")
      = Ok "bar"
   /\ sample_bash 1 "/srv"
        ("export FOO=" +:+ dquote +:+ "bar" +:+ dquote +:+ ";export BAZ="
           +:+ dquote +:+ "$FOO-baz" +:+ dquote +:+ ";echo -n $FOO-baz;")
      = Ok "bar-baz")
  /\ returned (ResolveValues (fun _ => Ok "/srv") sample_bash
                 sample_chain sample_store) = Ok ()
  /\ store_after (ResolveValues (fun _ => Ok "/srv") sample_bash
                    sample_chain sample_store) !! 1
     = Some (mkEnvVar "FOO" "bar")
  /\ store_after (ResolveValues (fun _ => Ok "/srv") sample_bash
                    sample_chain sample_store) !! 2
     = Some (mkEnvVar "BAZ" "bar-baz").
Proof.
  split; [by repeat split|].
  apply (proj2 (ResolveValues_scripts_from_raw_values
                  (fun _ => Ok "/srv") sample_bash) "/srv" "/srv");
    reflexivity.
Defined.

Lemma ResolveValues_failure_keeps_partial_result_witness :
  (NoDup sample_chain /\ points_to sample_store sample_chain sample_raw
   /\ sample_raw !! 1 = Some (mkEnvVar "BAZ" "$FOO-baz")
   /\ failing_bash 0 "/srv" (script_for sample_raw 0) = Ok "bar"
   /\ failing_bash 1 "/srv" (script_for sample_raw 1)
      = Err (OSError "exit status 127"))
  /\ returned (ResolveValues (fun _ => Ok "/srv") failing_bash
                 sample_chain sample_store)
     = Err (Wrapf (OSError "exit status 127") "resolving env var BAZ failed")
  /\ length (scripts_run (ResolveValues (fun _ => Ok "/srv") failing_bash
                            sample_chain sample_store)) = 2
  /\ store_after (ResolveValues (fun _ => Ok "/srv") failing_bash
                    sample_chain sample_store) !! 1
     = Some (mkEnvVar "FOO" "bar")
  /\ store_after (ResolveValues (fun _ => Ok "/srv") failing_bash
                    sample_chain sample_store) !! 2
     = Some (mkEnvVar "BAZ" "$FOO-baz").
Proof.
  assert (NoDup sample_chain) as Hnd.
  { unfold sample_chain. repeat constructor;
      rewrite ?elem_of_cons, ?elem_of_nil; intuition discriminate. }
  assert (points_to sample_store sample_chain sample_raw) as Hpt
    by (unfold points_to, sample_chain, sample_raw; by repeat constructor).
  split; [by repeat split|].
  destruct (ResolveValues_failure_keeps_partial_result
              (fun _ => Ok "/srv") failing_bash
              sample_chain sample_store sample_raw (fun _ => "bar")
              1 (mkEnvVar "BAZ" "$FOO-baz") "/srv" (OSError "exit status 127")
              Hnd Hpt eq_refl)
    as (Hret & Hran & Hdone & Hrest).
  - intros [|i] vi Hi Hvi; [|lia]. exists "/srv". by split.
  - reflexivity.
  - reflexivity.
  - split; [exact Hret|]. split; [by rewrite Hran|]. split.
    + apply (Hdone 0 1 (mkEnvVar "FOO" "bar")); [lia|reflexivity..].
    + apply (Hrest 1 2 (mkEnvVar "BAZ" "$FOO-baz")); [lia|reflexivity..].
Defined.

(** * Further properties *)

(** ** [Set] *)

Lemma set_entry_keys_present (key value : string) (raw : list EnvVar) :
  key ∈ Key <$> raw -> Key <$> set_entry key value raw = Key <$> raw.
Proof.
  induction raw as [|v raw IH]; simpl; intros Hin.
  { by apply elem_of_nil in Hin. }
  destruct (String.eqb_spec (Key v) key) as [He|Hne]; [done|].
  simpl. f_equal. apply IH.
  apply elem_of_cons in Hin as [Hin|Hin]; [congruence|done].
Qed.

Lemma set_entry_absent (key value : string) (raw : list EnvVar) :
  key ∉ Key <$> raw -> set_entry key value raw = (raw ++ [mkEnvVar key value])%list.
Proof.
  induction raw as [|v raw IH]; simpl; intros Hnin; [done|].
  destruct (String.eqb_spec (Key v) key) as [He|Hne].
  - exfalso. apply Hnin. rewrite He. by left.
  - f_equal. apply IH. intros Hin. apply Hnin. by right.
Qed.

Lemma set_entry_keys (key value : string) (raw : list EnvVar) :
  Key <$> set_entry key value raw
  = if decide (key ∈ Key <$> raw) then Key <$> raw
    else ((Key <$> raw) ++ [key])%list.
Proof.
  case_decide as Hin.
  - by apply set_entry_keys_present.
  - rewrite set_entry_absent by done. by rewrite fmap_app.
Qed.

Lemma set_entry_NoDup (key value : string) (raw : list EnvVar) :
  NoDup (Key <$> raw) -> NoDup (Key <$> set_entry key value raw).
Proof.
  intros Hnd. rewrite set_entry_keys. case_decide as Hin; [done|].
  apply NoDup_app. split; [done|]. split; [|apply NoDup_singleton].
  by intros k Hk ->%list_elem_of_singleton.
Qed.

(** After [set_entry], the first variable with the key holds the value. *)
Lemma set_entry_first (key value : string) (raw : list EnvVar) :
  exists i,
    set_entry key value raw !! i = Some (mkEnvVar key value)
    /\ (forall j w, j < i -> set_entry key value raw !! j = Some w -> Key w <> key)
    /\ (forall j, j <> i -> set_entry key value raw !! j = raw !! j)
    /\ (i < length raw -> exists v, raw !! i = Some v /\ Key v = key)
    /\ i <= length raw.
Proof.
  induction raw as [|v raw IH]; simpl.
  { exists 0. split; [done|]. split; [intros; lia|].
    split; [by intros [|j] ?|]. split; [intros; lia|lia]. }
  destruct (String.eqb_spec (Key v) key) as [He|Hne].
  - exists 0. rewrite He. split; [done|]. split; [intros; lia|].
    split; [by intros [|j] ?|]. split; [|lia]. intros _. by exists v.
  - destruct IH as (i & Hi & Hbefore & Hother & Hold & Hle).
    exists (S i). split; [done|]. split; [|split; [|split]].
    + intros [|j] w Hj Hw; simpl in Hw; [by injection Hw as <-|].
      apply (Hbefore j); [lia|done].
    + intros [|j] Hj; [done|]. simpl. apply Hother. lia.
    + intros Hlt. apply Hold. lia.
    + lia.
Qed.

Lemma points_to_update (h : store) (e : EnvList) (raw : list EnvVar)
    (i : nat) (p : loc) (x : EnvVar) :
  NoDup e -> points_to h e raw -> e !! i = Some p ->
  points_to (<[p := x]> h) e (<[i := x]> raw).
Proof.
  unfold points_to. intros Hnd Hpt Hi.
  apply Forall2_same_length_lookup. split.
  { rewrite length_insert. by eapply Forall2_length. }
  intros j q y Hq Hy. destruct (decide (j = i)) as [->|Hne].
  - assert (q = p) as ->
      by (apply (inj Some); exact (eq_trans (eq_sym Hq) Hi)).
    rewrite list_lookup_insert_eq in Hy.
    + injection Hy as <-. by rewrite lookup_insert_eq.
    + rewrite <- (Forall2_length _ _ _ Hpt). by eapply lookup_lt_Some.
  - rewrite list_lookup_insert_ne in Hy by done.
    rewrite lookup_insert_ne.
    + exact (Forall2_lookup_lr _ _ _ _ _ _ Hpt Hq Hy).
    + intros <-. apply Hne. symmetry. eapply NoDup_lookup; eauto.
Qed.

Lemma points_to_allocated (h : store) (e : EnvList) (raw : list EnvVar)
    (p : loc) :
  points_to h e raw -> p ∈ e -> p ∈ dom h.
Proof.
  intros Hpt (i & Hi)%list_elem_of_lookup.
  destruct (Forall2_lookup_l _ _ _ _ _ Hpt Hi) as (v & _ & Hv).
  apply elem_of_dom. eauto.
Qed.

(** The scan of [Set] finds the first variable with the key. *)
Lemma Set_scan_spec (key value : string) (h : store) (e : EnvList)
    (raw : list EnvVar) :
  points_to h e raw ->
  (Set_scan h e key = Ok None /\ key ∉ Key <$> raw)
  \/ (exists i p v,
         Set_scan h e key = Ok (Some p)
         /\ e !! i = Some p /\ raw !! i = Some v /\ Key v = key
         /\ set_entry key value raw = <[i := mkEnvVar (Key v) value]> raw).
Proof.
  induction 1 as [|p v e raw Hp Hpt IH]; simpl.
  { left. split; [done|]. apply not_elem_of_nil. }
  unfold load. rewrite Hp. simpl.
  destruct (String.eqb_spec (Key v) key) as [He|Hne].
  - right. by exists 0, p, v.
  - destruct IH as [[Hs Hnin]|(i & q & w & Hs & Hq & Hw & Hk & Hset)].
    + left. split; [done|]. rewrite not_elem_of_cons. by split.
    + right. exists (S i), q, w. simpl. rewrite Hset. by repeat split.
Qed.

(** [Set] on the store is [set_entry] on the variables; it allocates at
    most one variable and writes to no variable outside the list. *)
Lemma EnvList_Set_refines (key value : string) (e : EnvList) (h : store)
    (raw : list EnvVar) :
  NoDup e -> points_to h e raw ->
  exists e' h',
    EnvList_Set key value (e, h) = Ok (e', h')
    /\ NoDup e'
    /\ points_to h' e' (set_entry key value raw)
    /\ (e' = e \/ ((key ∉ Key <$> raw) /\ exists q, (q ∉ dom h) /\ e' = (e ++ [q])%list))
    /\ (forall p, p ∈ dom h -> p ∉ e -> h' !! p = h !! p).
Proof.
  intros Hnd Hpt. unfold EnvList_Set.
  destruct (Set_scan_spec key value h e raw Hpt)
    as [[-> Hnin]|(i & p & v & -> & Hi & Hv & Hk & ->)]; simpl.
  - assert (fresh (dom h) ∉ e) as Hfresh.
    { intros Hin. apply (is_fresh (dom h)). by eapply points_to_allocated. }
    eexists _, _. split; [done|]. split; [|split; [|split]].
    + apply NoDup_app. split; [done|]. split; [|apply NoDup_singleton].
      by intros p Hp ->%list_elem_of_singleton.
    + rewrite set_entry_absent by done. apply Forall2_app.
      * by apply points_to_insert.
      * constructor; [by rewrite lookup_insert_eq|constructor].
    + right. split; [done|]. exists (fresh (dom h)). split; [|done].
      apply is_fresh.
    + intros p Hp _. rewrite lookup_insert_ne; [done|].
      intros <-. by apply (is_fresh (dom h)).
  - unfold load. rewrite (Forall2_lookup_lr _ _ _ _ _ _ Hpt Hi Hv). simpl.
    eexists _, _. split; [done|]. split; [done|]. split; [|split].
    + by apply points_to_update.
    + by left.
    + intros q _ Hq. rewrite lookup_insert_ne; [done|].
      intros <-. apply Hq. apply list_elem_of_lookup. eauto.
Qed.


(** X2.  [Set] keeps the list free of aliasing and the keys unique, and
    binds the key: afterwards exactly one variable has the key, and it
    holds the value. *)
Theorem EnvList_Set_keeps_keys_unique :
  forall (key value : string) (e : EnvList) (h : store) (raw : list EnvVar),
    NoDup e -> points_to h e raw -> NoDup (Key <$> raw) ->
    exists e' h' raw',
      EnvList_Set key value (e, h) = Ok (e', h')
      /\ NoDup e' /\ points_to h' e' raw'
      /\ NoDup (Key <$> raw')
      /\ mkEnvVar key value ∈ raw'
      /\ (forall w, w ∈ raw' -> Key w = key -> Value w = value).
Proof.
  intros key value e h raw Hnd Hpt Hkeys.
  destruct (EnvList_Set_refines key value e h raw Hnd Hpt)
    as (e' & h' & Hset & Hnd' & Hpt' & _ & _).
  exists e', h', (set_entry key value raw).
  pose proof (set_entry_NoDup key value raw Hkeys) as Hkeys'.
  destruct (set_entry_first key value raw) as (i & Hi & _).
  split; [done|]. split; [done|]. split; [done|]. split; [done|]. split.
  - apply list_elem_of_lookup. eauto.
  - intros w (j & Hj)%list_elem_of_lookup Hk.
    assert (j = i) as ->.
    { eapply (NoDup_lookup (Key <$> set_entry key value raw)); [done| |].
      - rewrite list_lookup_fmap, Hj. simpl. by rewrite Hk.
      - by rewrite list_lookup_fmap, Hi. }
    rewrite Hi in Hj. by injection Hj as <-.
Qed.



(** ** [EnvList.UnmarshalYAML] *)

Lemma set_entry_other (key value : string) (raw : list EnvVar) (w : EnvVar) :
  w ∈ raw -> Key w <> key -> w ∈ set_entry key value raw.
Proof.
  induction raw as [|v raw IH]; simpl; intros Hin Hne.
  { by apply elem_of_nil in Hin. }
  apply elem_of_cons in Hin as [->|Hin].
  - destruct (String.eqb_spec (Key v) key); [done|by left].
  - destruct (String.eqb_spec (Key v) key) as [He|_]; right; [done|by apply IH].
Qed.

Lemma set_entry_bound (key value : string) (raw : list EnvVar) :
  mkEnvVar key value ∈ set_entry key value raw.
Proof.
  destruct (set_entry_first key value raw) as (i & Hi & _).
  apply list_elem_of_lookup. eauto.
Qed.

Lemma fold_set_entry_app (items : list MapItem) (item : MapItem)
    (raw : list EnvVar) :
  foldl (fun raw item => set_entry (Sprintf_v (item_Key item))
                           (Sprintf_v (item_Value item)) raw)
    raw (items ++ [item])
  = set_entry (item_key_text item) (item_value_text item)
      (foldl (fun raw item => set_entry (Sprintf_v (item_Key item))
                                (Sprintf_v (item_Value item)) raw)
         raw items).
Proof. by rewrite foldl_app. Qed.

Lemma env_of_items_keys (items : list MapItem) :
  Key <$> env_of_items items = first_occurrences (item_key_text <$> items).
Proof.
  induction items as [|item items IH] using rev_ind; [done|].
  unfold env_of_items, first_occurrences in *.
  rewrite fold_set_entry_app, fmap_app, foldl_app. simpl.
  rewrite set_entry_keys. by rewrite IH.
Qed.

Lemma first_occurrences_NoDup (keys : list string) :
  NoDup (first_occurrences keys).
Proof.
  unfold first_occurrences.
  induction keys as [|k keys IH] using rev_ind; [apply NoDup_nil_2|].
  rewrite foldl_app. simpl. case_decide as Hin; [done|].
  apply NoDup_app. split; [done|]. split; [|apply NoDup_singleton].
  by intros x Hx ->%list_elem_of_singleton.
Qed.

Lemma first_occurrences_elem (keys : list string) (k : string) :
  k ∈ first_occurrences keys <-> k ∈ keys.
Proof.
  unfold first_occurrences.
  induction keys as [|k' keys IH] using rev_ind; [done|].
  rewrite foldl_app. simpl. rewrite elem_of_app, list_elem_of_singleton.
  case_decide as Hin.
  - rewrite IH. split; [by left|]. intros [?| ->]; [done|]. by apply IH.
  - by rewrite elem_of_app, list_elem_of_singleton, IH.
Qed.

(** The value of a key is that of the last item with the key. *)
Lemma env_of_items_last (pre post : list MapItem) (item : MapItem) :
  (forall it, it ∈ post -> item_key_text it <> item_key_text item) ->
  mkEnvVar (item_key_text item) (item_value_text item)
  ∈ env_of_items (pre ++ item :: post).
Proof.
  induction post as [|it post IH] using rev_ind; intros Hpost.
  - unfold env_of_items. rewrite fold_set_entry_app. apply set_entry_bound.
  - unfold env_of_items in *.
    replace (pre ++ item :: post ++ [it])%list
      with ((pre ++ item :: post) ++ [it])%list
      by (by rewrite <- app_assoc).
    rewrite fold_set_entry_app. apply set_entry_other.
    + apply IH. intros it' Hit'. apply Hpost. apply elem_of_app. by left.
    + simpl. symmetry. intros Heq. eapply Hpost; [|exact Heq].
      apply elem_of_app. right. by apply list_elem_of_singleton.
Qed.

Section EnvListDecoding.

Variable node : Type.
Variable unmarshal_MapSlice : node -> result (list MapItem).

Lemma Set_items_refines (items : list MapItem) :
  forall (e : EnvList) (h : store) (raw : list EnvVar),
    NoDup e -> points_to h e raw ->
    exists e' h',
      Set_items items (e, h) = Ok (e', h')
      /\ NoDup e'
      /\ points_to h' e'
           (foldl (fun raw item => set_entry (Sprintf_v (item_Key item))
                                     (Sprintf_v (item_Value item)) raw)
              raw items)
      /\ (forall p, p ∈ dom h -> p ∉ e -> h' !! p = h !! p).
Proof.
  induction items as [|item items IH]; intros e h raw Hnd Hpt.
  { by exists e, h. }
  change (Set_items (item :: items) (e, h))
    with (EnvList_Set (Sprintf_v (item_Key item)) (Sprintf_v (item_Value item))
            (e, h) ≫= Set_items items).
  destruct (EnvList_Set_refines (Sprintf_v (item_Key item))
              (Sprintf_v (item_Value item)) e h raw Hnd Hpt)
    as (e1 & h1 & -> & Hnd1 & Hpt1 & Hshape & Hframe1).
  simpl.
  destruct (IH e1 h1 _ Hnd1 Hpt1) as (e' & h' & Hitems & Hnd' & Hpt' & Hframe').
  exists e', h'. split; [done|]. split; [done|]. split; [done|].
  intros p Hp Hnin. rewrite Hframe'.
  - by apply Hframe1.
  - apply elem_of_dom. rewrite Hframe1 by done. by apply elem_of_dom.
  - destruct Hshape as [->|(_ & q & Hq & ->)]; [done|].
    rewrite not_elem_of_app. split; [done|].
    intros ->%list_elem_of_singleton. done.
Qed.

(** X4.  [EnvList.UnmarshalYAML] never fails once the items are decoded.
    It builds a list without aliasing whose keys are unique and stand in
    the order of their first declaration; a key declared more than once
    holds the value of its last declaration; no variable that existed
    before is written to. *)
Theorem EnvList_UnmarshalYAML_unique_keys :
  forall (y : node) (items : list MapItem) (h : store),
    unmarshal_MapSlice y = Ok items ->
    exists e h',
      EnvList_UnmarshalYAML node unmarshal_MapSlice h y = Ok (e, h')
      /\ NoDup e
      /\ points_to h' e (env_of_items items)
      /\ NoDup (Key <$> env_of_items items)
      /\ Key <$> env_of_items items = first_occurrences (item_key_text <$> items)
      /\ (forall pre item post,
             items = (pre ++ item :: post)%list ->
             (forall it, it ∈ post -> item_key_text it <> item_key_text item) ->
             mkEnvVar (item_key_text item) (item_value_text item)
             ∈ env_of_items items)
      /\ (forall p, p ∈ dom h -> h' !! p = h !! p).
Proof.
  intros y items h Hy. unfold EnvList_UnmarshalYAML. rewrite Hy. simpl.
  destruct (Set_items_refines items [] h [])
    as (e & h' & Hitems & Hnd & Hpt & Hframe);
    [apply NoDup_nil_2|constructor|].
  exists e, h'. split; [done|]. split; [done|]. split; [done|].
  split; [|split; [apply env_of_items_keys|split]].
  - rewrite env_of_items_keys. apply first_occurrences_NoDup.
  - intros pre item post -> Hpost. by apply env_of_items_last.
  - intros p Hp. apply Hframe; [done|apply not_elem_of_nil].
Qed.

End EnvListDecoding.

(** ** [ResolveValues], whatever the shell does *)

Section ResolveValuesInvariants.

Variable os_Getwd : nat -> result string.
Variable bash_c : nat -> string -> string -> result string.

Lemma ResolveValues_from_invariants (e : EnvList) :
  forall (i : nat) (exports : string) (h : store) (ran : list string),
    (forall p, p ∉ e ->
       store_after (ResolveValues_from os_Getwd bash_c i e exports h ran) !! p
       = h !! p)
    /\ (forall p,
          option_Forall2 (fun v v' => Key v' = Key v)
            (h !! p)
            (store_after (ResolveValues_from os_Getwd bash_c i e exports h ran)
               !! p))
    /\ exists new,
         scripts_run (ResolveValues_from os_Getwd bash_c i e exports h ran)
         = (ran ++ new)%list
         /\ length new <= length e.
Proof.
  assert (forall (h : store) p,
             option_Forall2 (fun v v' : EnvVar => Key v' = Key v) (h !! p) (h !! p))
    as Hrefl.
  { intros h p. destruct (h !! p); by constructor. }
  induction e as [|q e IH]; intros i exports h ran; simpl.
  { split; [done|]. split; [apply Hrefl|]. exists []. by rewrite app_nil_r. }
  destruct (h !! q) as [v|] eqn:Hq; simpl.
  2:{ split; [done|]. split; [apply Hrefl|]. exists []. rewrite app_nil_r.
      split; [done|simpl; lia]. }
  destruct (os_Getwd i) as [cwd|err|msg]; simpl.
  2,3: (split; [done|]; split; [apply Hrefl|]; exists []; rewrite app_nil_r;
        split; [done|simpl; lia]).
  match goal with
  | |- context [bash_c i cwd ?script] =>
      set (script0 := script); destruct (bash_c i cwd script0) as [out|err|msg]
  end; simpl.
  2,3: (split; [done|]; split; [apply Hrefl|]; exists [script0];
        split; [done|simpl; lia]).
  match goal with
  | |- context [ResolveValues_from _ _ ?i' e ?x' ?h' ?r'] =>
      destruct (IH i' x' h' r') as (Hframe & Hkeys & new & Hran & Hlen)
  end.
  split; [|split].
  - intros p Hp. apply not_elem_of_cons in Hp as [Hne Hp].
    rewrite Hframe by done. by rewrite lookup_insert_ne.
  - intros p. specialize (Hkeys p). destruct (decide (p = q)) as [->|Hne].
    + rewrite lookup_insert_eq in Hkeys. rewrite Hq.
      inversion Hkeys as [? v' Hk|]; subst. constructor. by rewrite Hk.
    + by rewrite lookup_insert_ne in Hkeys.
  - exists (script0 :: new). rewrite Hran, <- app_assoc. split; [done|].
    simpl. lia.
Qed.

(** X5.  Whatever the shell and [os.Getwd] answer, and whether the call
    succeeds or not, [ResolveValues] changes only values: every variable
    keeps its key, no variable appears or disappears, the variables that
    the list does not point to are untouched, and at most one script is
    run per entry. *)
Theorem ResolveValues_changes_values_only :
  forall (e : EnvList) (h : store),
    (forall p v, h !! p = Some v ->
       exists v', store_after (ResolveValues os_Getwd bash_c e h) !! p = Some v'
                  /\ Key v' = Key v)
    /\ (forall p, h !! p = None ->
          store_after (ResolveValues os_Getwd bash_c e h) !! p = None)
    /\ (forall p, p ∉ e ->
          store_after (ResolveValues os_Getwd bash_c e h) !! p = h !! p)
    /\ length (scripts_run (ResolveValues os_Getwd bash_c e h)) <= length e.
Proof.
  intros e h. rewrite ResolveValues_loop.
  destruct (ResolveValues_from_invariants e 0 "" h [])
    as (Hframe & Hkeys & new & Hran & Hlen).
  split; [|split; [|split]].
  - intros p v Hp. specialize (Hkeys p). rewrite Hp in Hkeys.
    inversion Hkeys as [? v' Hk|]; subst. by exists v'.
  - intros p Hp. specialize (Hkeys p). rewrite Hp in Hkeys.
    by inversion Hkeys.
  - exact Hframe.
  - by rewrite Hran.
Qed.

(** X6.  When [os.Getwd] fails at entry [k], the call returns that error
    as it is, without the key of the entry; the script of entry [k] is
    not run; the entries before [k] hold their resolved values and the
    entries from [k] on keep their raw values. *)
Theorem ResolveValues_Getwd_failure :
  forall (e : EnvList) (h : store) (raw : list EnvVar) (outs : nat -> string)
         (k : nat) (v : EnvVar) (err : error),
    NoDup e -> points_to h e raw ->
    raw !! k = Some v ->
    (forall i vi, i < k -> raw !! i = Some vi ->
       exists cwd, os_Getwd i = Ok cwd
                   /\ bash_c i cwd (script_for raw i) = Ok (outs i)) ->
    os_Getwd k = Err err ->
    returned (ResolveValues os_Getwd bash_c e h) = Err err
    /\ scripts_run (ResolveValues os_Getwd bash_c e h)
       = script_for raw <$> seq 0 k
    /\ (forall i p vi, i < k -> e !! i = Some p -> raw !! i = Some vi ->
          store_after (ResolveValues os_Getwd bash_c e h) !! p
          = Some (mkEnvVar (Key vi) (outs i)))
    /\ (forall i p vi, k <= i -> e !! i = Some p -> raw !! i = Some vi ->
          store_after (ResolveValues os_Getwd bash_c e h) !! p = Some vi).
Proof.
  intros e h raw outs k v err Hnd Hpt Hv Hrun Hwd.
  rewrite ResolveValues_loop.
  pose proof (Forall2_length _ _ _ Hpt) as Hlen.
  pose proof (lookup_lt_Some _ _ _ Hv) as Hk.
  destruct (ResolveValues_from_steps os_Getwd bash_c k e raw 0 "" h [] outs)
    as (h' & Hloop & Hnew & Hold); [done|done|lia|done|].
  rewrite Hloop. clear Hloop.
  change (script_at "" raw <$> seq 0 k) with (script_for raw <$> seq 0 k).
  remember (script_for raw <$> seq 0 k) as before eqn:Hbefore.
  destruct (lookup_lt_is_Some_2 e k) as [p Hp]; [lia|].
  rewrite (drop_S _ _ _ Hp). simpl.
  assert (forall i q vi, k <= i -> e !! i = Some q -> raw !! i = Some vi ->
            h' !! q = Some vi) as Hrest.
  { intros i q vi Hi Hq Hvi. rewrite Hold.
    - exact (Forall2_lookup_lr _ _ _ _ _ _ Hpt Hq Hvi).
    - intros (j & Hj & Hlt)%elem_of_take.
      assert (i = j) by (eapply NoDup_lookup; eauto). lia. }
  rewrite (Hrest k p v) by done. rewrite Hwd. simpl.
  split; [done|]. split; [done|]. split; [exact Hnew|exact Hrest].
Qed.

End ResolveValuesInvariants.

(** ** [NewHost] on any string *)

Lemma NewHost_stages (user_Current : result string)
    (table : gmap string SSHConfigEntry) (ResolvePath : string -> string)
    (hostStr : string) :
  NewHost user_Current table ResolvePath hostStr
  = let '(user, rest) := split_user (strip_scheme hostStr) in
    user ← (if String.eqb user "" then user_Current else Ok user);
    if strings_Contains rest "/" then
      Err (ErrorString "unexpected slash in the host URL")
    else
      '(address, port) ← split_port rest;
      match table !! address with
      | Some conf =>
          match ssh_Host conf with
          | known :: _ => Ok (host_of_ssh_config ResolvePath conf known)
          | [] => Panic "index out of range [0] with length 0"
          end
      | None => Ok (mkHost address port user "" "" "")
      end.
Proof. reflexivity. Qed.

Lemma str_mem_drop (c : ascii) (n : nat) (s : string) :
  str_mem c (str_drop n s) = true -> str_mem c s = true.
Proof.
  revert s. induction n as [|n IH]; intros [|a s]; simpl; try done.
  intros H. rewrite (IH _ H). apply orb_true_r.
Qed.

Lemma str_mem_take (c : ascii) (n : nat) (s : string) :
  str_mem c (str_take n s) = true -> str_mem c s = true.
Proof.
  revert s. induction n as [|n IH]; intros [|a s]; simpl; try done.
  intros [->|H]%orb_true_iff; [done|]. rewrite (IH _ H). apply orb_true_r.
Qed.

Lemma str_mem_slice (c : ascii) (s : string) (lo hi : Z) :
  str_mem c (slice s lo hi) = true -> str_mem c s = true.
Proof. unfold slice. intros H%str_mem_take. by eapply str_mem_drop. Qed.

Lemma str_mem_slice_from (c : ascii) (s : string) (lo : Z) :
  str_mem c (slice_from s lo) = true -> str_mem c s = true.
Proof. apply str_mem_drop. Qed.

Lemma str_mem_absent_slice (c : ascii) (s : string) (lo hi : Z) :
  str_mem c s = false -> str_mem c (slice s lo hi) = false.
Proof.
  intros Hs. destruct (str_mem c (slice s lo hi)) eqn:H; [|done].
  apply str_mem_slice in H. congruence.
Qed.

Lemma str_mem_absent_slice_from (c : ascii) (s : string) (lo : Z) :
  str_mem c s = false -> str_mem c (slice_from s lo) = false.
Proof.
  intros Hs. destruct (str_mem c (slice_from s lo)) eqn:H; [|done].
  apply str_mem_slice_from in H. congruence.
Qed.

(** The last occurrence of a byte splits the string. *)
Lemma LastIndexByte_spec (c : ascii) (s : string) (off : Z) :
  (0 <= off)%Z ->
  (LastIndexByte_at off s c = (-1)%Z /\ str_mem c s = false)
  \/ (exists u r, s = u +:+ String c r /\ str_mem c r = false
                  /\ LastIndexByte_at off s c = (off + len u)%Z).
Proof.
  revert off. induction s as [|a s IH]; intros off Hoff; simpl; [by left|].
  destruct (IH (off + 1)%Z) as [[-> Hno]|(u & r & -> & Hr & ->)]; [lia| |].
  - simpl. destruct (Ascii.eqb_spec a c) as [->|Hne].
    + right. exists "", s. split; [done|]. split; [done|].
      unfold len. simpl. lia.
    + left. by rewrite Hno.
  - right. exists (String a u), r. split; [done|]. split; [done|].
    pose proof (len_nonneg u).
    destruct (Z.leb_spec 0 (off + 1 + len u)); [|lia].
    unfold len. simpl String.length. lia.
Qed.

(** [split_user] cuts at the last ["@"]: the rest has none. *)
Lemma split_user_spec (s : string) :
  (split_user s = ("", s) /\ str_mem "@" s = false)
  \/ (exists u r, s = u +:+ "@" +:+ r /\ str_mem "@" r = false
                  /\ split_user s = (u, r)).
Proof.
  unfold split_user, strings_LastIndex. rewrite LastIndex_byte.
  destruct (LastIndexByte_spec "@" s 0) as [[-> Hno]|(u & r & -> & Hr & ->)];
    [lia|by left|].
  right. exists u, r. split; [done|]. split; [done|].
  rewrite Z.add_0_l. pose proof (len_nonneg u).
  destruct (Z.eqb_spec (len u) (-1)); [lia|]. simpl.
  by rewrite slice_to_app, slice_from_app_cons.
Qed.

Lemma split_user_rest (s : string) : str_mem "@" (split_user s).2 = false.
Proof.
  destruct (split_user_spec s) as [[-> H]|(u & r & _ & Hr & ->)]; done.
Qed.

(** What [split_port] returns is cut out of its argument, and the port
    has no colon. *)
Lemma split_port_parts (rest address port : string) :
  split_port rest = Ok (address, port) ->
  (forall c, str_mem c rest = false -> str_mem c address = false)
  /\ (port = "22" \/ forall c, str_mem c rest = false -> str_mem c port = false)
  /\ str_mem ":" port = false.
Proof.
  unfold split_port. rewrite Contains_byte.
  destruct (str_mem ":" rest) eqn:Hcolon.
  2:{ intros [= <- <-]. split; [done|]. split; [by left|done]. }
  unfold net_SplitHostPort, LastIndexByteString.
  destruct (LastIndexByte_spec ":" rest 0) as [[-> Hno]|(u & r & -> & Hr & ->)];
    [lia|done|].
  rewrite Z.add_0_l. pose proof (len_nonneg u).
  destruct (Z.ltb_spec (len u) 0); [lia|].
  set (hostport := u +:+ String ":" r).
  assert (slice_from hostport (len u + 1) = r) as Hport
    by apply slice_from_app_cons.
  intros Hsplit.
  assert (exists j k, (address = slice hostport 1 j \/ address = slice_to hostport k)
                      /\ port = slice_from hostport (len u + 1)) as (j & k & Ha & ->).
  { revert Hsplit. unfold addrErr.
    repeat match goal with
           | |- context [if ?b then _ else _] => destruct b
           end; simpl; try done;
      repeat match goal with
             | |- context [if ?b then _ else _] => destruct b
             end; simpl; try done; intros [= <- <-];
      first [ by eexists _, 0%Z; split; [left|]
            | by eexists 0%Z, _; split; [right|] ]. }
  rewrite Hport. split; [|split; [|done]].
  - intros c Hc. destruct Ha as [->| ->]; by apply str_mem_absent_slice.
  - right. intros c Hc. rewrite <- Hport. by apply str_mem_absent_slice_from.
Qed.

Section NewHostAnyString.

Variable user_Current : result string.
Variable extractedHostSSHConfig : gmap string SSHConfigEntry.
Variable ResolvePath : string -> string.

(** X7.  A host that [NewHost] returns either is made from an entry of
    the SSH-config table, or has an address without ["/"] and ["@"], a
    port without ["/"], ["@"] and [":"], no identity file, no alias and
    no bastion, and the table has no entry for its address. *)
Theorem NewHost_result_shape :
  forall (hostStr : string) (host : Host),
    NewHost user_Current extractedHostSSHConfig ResolvePath hostStr = Ok host ->
    (exists address conf known aliases,
        extractedHostSSHConfig !! address = Some conf
        /\ ssh_Host conf = known :: aliases
        /\ host = host_of_ssh_config ResolvePath conf known)
    \/ (extractedHostSSHConfig !! Address host = None
        /\ str_mem "/" (Address host) = false
        /\ str_mem "@" (Address host) = false
        /\ str_mem "/" (Port host) = false
        /\ str_mem "@" (Port host) = false
        /\ str_mem ":" (Port host) = false
        /\ IdentityFile host = "" /\ KnownAs host = "" /\ Bastion host = "").
Proof.
  intros hostStr host. rewrite NewHost_stages.
  pose proof (split_user_rest (strip_scheme hostStr)) as Hat.
  destruct (split_user (strip_scheme hostStr)) as [user rest]. simpl in Hat.
  destruct (if String.eqb user "" then user_Current else Ok user)
    as [u| |]; simpl; [|done..].
  rewrite Contains_byte. destruct (str_mem "/" rest) eqn:Hslash; [done|].
  destruct (split_port rest) as [[address port]| |] eqn:Hport; simpl; [|done..].
  destruct (split_port_parts _ _ _ Hport) as (Ha & Hp & Hcolon).
  destruct (extractedHostSSHConfig !! address) as [conf|] eqn:Hconf.
  - destruct (ssh_Host conf) as [|known aliases] eqn:Hknown; [done|].
    intros [= <-]. left. by exists address, conf, known, aliases.
  - intros [= <-]. right. simpl.
    split; [done|]. split; [auto|]. split; [auto|].
    split; [destruct Hp as [->|Hp]; auto|].
    split; [destruct Hp as [->|Hp]; auto|]. done.
Qed.

(** X8.  Without an inline user the OS user is needed: when its lookup
    fails, [NewHost] fails with that error on every string without
    ["@"], well-formed or not.  With a non-empty inline user the OS user
    is not consulted: the result is the same whatever the lookup gives. *)
Theorem NewHost_needs_OS_user_only_without_inline_user :
  (forall (e : error) (hostStr : string),
      str_mem "@" hostStr = false ->
      NewHost (Err e) extractedHostSSHConfig ResolvePath hostStr = Err e)
  /\ (forall (other_Current : result string) (user rest : string),
      user <> "" -> str_mem "@" rest = false ->
      has_scheme (user +:+ "@" +:+ rest) = false ->
      NewHost user_Current extractedHostSSHConfig ResolvePath
        (user +:+ "@" +:+ rest)
      = NewHost other_Current extractedHostSSHConfig ResolvePath
          (user +:+ "@" +:+ rest)).
Proof.
  split.
  - intros e hostStr Hat. rewrite NewHost_stages.
    assert (str_mem "@" (strip_scheme hostStr) = false) as Hat'.
    { unfold strip_scheme. destruct (_ && _); [|done].
      by apply str_mem_absent_slice_from. }
    destruct (split_user_spec (strip_scheme hostStr))
      as [[-> _]|(u & r & Hs & _ & _)]; [done|].
    rewrite Hs, str_mem_app in Hat'. simpl in Hat'.
    by rewrite orb_true_r in Hat'.
  - intros other user rest Hu Hat Hn.
    rewrite <- (str_app_assoc user "@" rest) in Hn |- *.
    rewrite (NewHost_split user_Current _ _ (Some user) rest)
      by (done || congruence).
    by rewrite (NewHost_split other _ _ (Some user) rest)
      by (done || congruence).
Qed.

End NewHostAnyString.

(** ** [NewHost] on the forms of a host string *)

Lemma IndexByte_present (c : ascii) (s : string) (off : Z) :
  str_mem c s = true -> (off <= IndexByte_at off s c)%Z.
Proof.
  revert off. induction s as [|a s IH]; intros off; simpl; [done|].
  destruct (Ascii.eqb a c); simpl; [lia|].
  intros H. specialize (IH (off + 1)%Z H). lia.
Qed.

Lemma IndexByte_first (c : ascii) (u r : string) (off : Z) :
  str_mem c u = false ->
  IndexByte_at off (u +:+ String c r) c = (off + len u)%Z.
Proof.
  revert off. induction u as [|a u IH]; intros off Hu;
    rewrite ?app_nil_l, ?app_cons; simpl.
  - rewrite Ascii.eqb_refl. unfold len. simpl. lia.
  - simpl in Hu. apply orb_false_iff in Hu as [-> Hu].
    rewrite IH by done. unfold len. simpl String.length. lia.
Qed.

Lemma first_byte_absent (c d : ascii) (u : string) :
  str_mem c u = false -> d <> c ->
  Ascii.eqb (match u with String b _ => b | EmptyString => d end) c = false.
Proof.
  intros Hu Hd. destruct u as [|b u]; simpl in *.
  - by apply Ascii.eqb_neq.
  - by apply orb_false_iff in Hu as [-> _].
Qed.

Lemma SplitHostPort_too_many_colons (host p1 p2 : string) :
  plain host = true -> plain p1 = true -> plain p2 = true ->
  net_SplitHostPort ((host +:+ ":" +:+ p1) +:+ ":" +:+ p2)
  = Err (AddrError "too many colons in address"
           ((host +:+ ":" +:+ p1) +:+ ":" +:+ p2)).
Proof.
  intros (_ & _ & Hc & Hl & Hr)%plain_spec (_ & _ & Hc1 & Hl1 & Hr1)%plain_spec
    (_ & _ & Hc2 & Hl2 & Hr2)%plain_spec.
  unfold net_SplitHostPort, LastIndexByteString.
  set (u := host +:+ ":" +:+ p1).
  change (u +:+ ":" +:+ p2) with (u +:+ String ":" p2).
  rewrite LastIndexByte_last by done. rewrite Z.add_0_l.
  pose proof (len_nonneg u).
  destruct (Z.ltb_spec (len u) 0); [lia|].
  rewrite byte_at_0_app.
  rewrite (first_byte_absent "[" ":" u).
  - rewrite slice_to_app. unfold IndexByteString.
    pose proof (IndexByte_present ":" u 0) as Hi.
    destruct (Z.leb_spec 0 (IndexByte_at 0 u ":")) as [_|Hlt]; [done|].
    exfalso. assert (str_mem ":" u = true) as Hu.
    { unfold u. rewrite str_mem_app. simpl. apply orb_true_r. }
    specialize (Hi Hu). lia.
  - unfold u. rewrite !str_mem_app. simpl. by rewrite Hl, Hl1.
  - done.
Qed.

Lemma SplitHostPort_bracketed (address port : string) :
  str_mem "[" address = false -> str_mem "]" address = false ->
  plain port = true ->
  net_SplitHostPort (("[" +:+ address +:+ "]") +:+ ":" +:+ port)
  = Ok (address, port).
Proof.
  intros Hl Hr (_ & _ & Hpc & Hpl & Hpr)%plain_spec.
  set (u := "[" +:+ address +:+ "]").
  set (hp := u +:+ ":" +:+ port).
  pose proof (len_nonneg address). pose proof (len_nonneg port).
  assert (len u = len address + 2)%Z as Hlenu.
  { unfold u. rewrite !len_app. unfold len. simpl. lia. }
  assert (LastIndexByteString hp ":" = len address + 2)%Z as Hi.
  { unfold LastIndexByteString, hp.
    change (u +:+ ":" +:+ port) with (u +:+ String ":" port).
    rewrite LastIndexByte_last by done. lia. }
  assert (byte_at hp 0 = "["%char) as Hfirst by reflexivity.
  assert (IndexByteString hp "]" = len address + 1)%Z as Hend.
  { unfold IndexByteString.
    replace hp with (("[" +:+ address) +:+ String "]" (String ":" port))
      by (unfold hp, u; by rewrite !str_app_assoc).
    rewrite IndexByte_first by (rewrite str_mem_app; simpl; by rewrite Hr).
    rewrite len_app. change (len "[") with 1%Z. lia. }
  assert (len hp = len address + 3 + len port)%Z as Hlen.
  { unfold hp. rewrite !len_app, Hlenu. unfold len. simpl String.length. lia. }
  assert (slice hp 1 (len address + 1) = address) as Hhost.
  { unfold slice. replace (len address + 1 - 1)%Z with (len address) by lia.
    change (str_drop (Z.to_nat 1) hp) with ((address +:+ "]") +:+ ":" +:+ port).
    rewrite str_app_assoc. unfold len. rewrite Nat2Z.id. apply str_take_app. }
  assert (IndexByteString (slice_from hp 1) "[" = (-1)%Z) as Hj.
  { change (slice_from hp 1) with ((address +:+ "]") +:+ ":" +:+ port).
    apply IndexByte_absent. rewrite !str_mem_app. simpl. by rewrite Hl, Hpl. }
  assert (slice_from hp (len address + 1 + 1) = String ":" port) as Hk.
  { replace (len address + 1 + 1)%Z with (len u) by lia.
    apply slice_from_app. }
  assert (slice_from hp (len address + 2 + 1) = port) as Hport.
  { replace (len address + 2)%Z with (len u) by lia.
    apply (slice_from_app_cons ":" u port). }
  clearbody hp. unfold net_SplitHostPort.
  rewrite Hi, Hfirst, Hend, Hlen, Hhost.
  destruct (Z.ltb_spec (len address + 2) 0); [lia|].
  destruct (Z.ltb_spec (len address + 1) 0); [lia|].
  destruct (Z.eqb_spec (len address + 1 + 1) (len address + 3 + len port));
    [lia|].
  destruct (Z.eqb_spec (len address + 1 + 1) (len address + 2)); [|lia].
  simpl. rewrite Hj, Hk. simpl. unfold IndexByteString.
  rewrite IndexByte_absent by (simpl; by rewrite Hpr). simpl. by rewrite Hport.
Qed.

Section NewHostForms.

Variable user_Current : result string.
Variable extractedHostSSHConfig : gmap string SSHConfigEntry.
Variable ResolvePath : string -> string.

Local Abbreviation NewHost' :=
  (NewHost user_Current extractedHostSSHConfig ResolvePath).

Lemma NewHost_plain_lookup (user : option string) (host : string)
    (port : option string) :
  user <> Some "" -> plain host = true ->
  from_option plain true port = true ->
  has_scheme (render_host user host port) = false ->
  NewHost' (render_host user host port) =
  u ← user_or_current user_Current user;
  match extractedHostSSHConfig !! host with
  | Some conf =>
      match ssh_Host conf with
      | known :: _ => Ok (host_of_ssh_config ResolvePath conf known)
      | [] => Panic "index out of range [0] with length 0"
      end
  | None => Ok (mkHost host (default "22" port) u "" "" "")
  end.
Proof.
  intros Hu Hh Hp Hn.
  pose proof (plain_spec _ Hh) as (Hat & Hsl & Hco & _).
  unfold render_host in *.
  destruct port as [p|]; simpl in Hp.
  - pose proof (plain_spec _ Hp) as (Hpat & Hpsl & _).
    rewrite NewHost_split; [|done| |done].
    + rewrite !str_mem_app. simpl str_mem. rewrite Hsl, Hpsl, Hco. simpl orb.
      cbv iota. rewrite SplitHostPort_plain by done.
      by destruct (user_or_current user_Current user).
    + rewrite !str_mem_app. simpl str_mem. by rewrite Hat, Hpat.
  - rewrite str_app_nil_r in Hn |- *.
    rewrite NewHost_split by done. rewrite Hsl, Hco.
    by destruct (user_or_current user_Current user).
Qed.

(** X9.  When the SSH-config table has an entry for the host of the
    string, the user, the address, the port, the identity file and the
    bastion of the result all come from the entry and the first alias
    becomes the display name; the inline user and port are dropped.  The
    OS user is still looked up first when no user is inline.  An entry
    without alias makes [NewHost] panic. *)
Theorem NewHost_SSH_config_overrides :
  forall (user : option string) (host : string) (port : option string)
         (conf : SSHConfigEntry),
    user <> Some "" -> plain host = true ->
    from_option plain true port = true ->
    has_scheme (render_host user host port) = false ->
    extractedHostSSHConfig !! host = Some conf ->
    (forall known aliases,
        ssh_Host conf = known :: aliases ->
        NewHost' (render_host user host port)
        = (_ ← user_or_current user_Current user;
           Ok (mkHost (ssh_HostName conf) (Sprintf_d (ssh_Port conf))
                 (ssh_User conf) (ResolvePath (ssh_IdentityFile conf))
                 known (ssh_ProxyJump conf)))
        /\ (known <> "" ->
            GetHostname (host_of_ssh_config ResolvePath conf known) = known
            /\ GetPrefixText (host_of_ssh_config ResolvePath conf known)
               = known +:+ " | "))
    /\ (ssh_Host conf = [] ->
        NewHost' (render_host user host port)
        = (_ ← user_or_current user_Current user;
           Panic "index out of range [0] with length 0")).
Proof.
  intros user host port conf Hu Hh Hp Hn Hconf.
  rewrite NewHost_plain_lookup by done. rewrite Hconf. split.
  - intros known aliases ->. split; [done|].
    intros Hk. unfold GetHostname, GetPrefixText. simpl.
    by destruct (String.eqb_spec known "").
  - by intros ->.
Qed.

(** X10.  A host string with two colons and no brackets is rejected with
    the error "too many colons in address" of [net.SplitHostPort], which
    carries the text after the user. *)
Theorem NewHost_too_many_colons :
  forall (user : option string) (host p1 p2 : string),
    user <> Some "" ->
    plain host = true -> plain p1 = true -> plain p2 = true ->
    has_scheme (render_host user (host +:+ ":" +:+ p1) (Some p2)) = false ->
    NewHost' (render_host user (host +:+ ":" +:+ p1) (Some p2))
    = (_ ← user_or_current user_Current user;
       Err (AddrError "too many colons in address"
              ((host +:+ ":" +:+ p1) +:+ ":" +:+ p2))).
Proof.
  intros user host p1 p2 Hu Hh H1 H2 Hn.
  pose proof (plain_spec _ Hh) as (Hat & Hsl & _).
  pose proof (plain_spec _ H1) as (Hat1 & Hsl1 & _).
  pose proof (plain_spec _ H2) as (Hat2 & Hsl2 & _).
  unfold render_host in *.
  rewrite NewHost_split; [|done| |done].
  - rewrite !str_mem_app. simpl str_mem. rewrite Hsl, Hsl1, Hsl2. simpl orb.
    rewrite !orb_true_r. cbv iota.
    rewrite SplitHostPort_too_many_colons by done.
    by destruct (user_or_current user_Current user).
  - rewrite !str_mem_app. simpl str_mem. by rewrite Hat, Hat1, Hat2.
Qed.

(** X11.  An address in brackets may hold colons: [[address]:port]
    parses to the address without the brackets, and it is the address
    without the brackets that is looked up in the SSH-config table. *)
Theorem NewHost_bracketed_address :
  forall (user : option string) (address port : string),
    user <> Some "" ->
    str_mem "[" address = false -> str_mem "]" address = false ->
    str_mem "/" address = false -> str_mem "@" address = false ->
    plain port = true ->
    has_scheme (render_host user ("[" +:+ address +:+ "]") (Some port)) = false ->
    extractedHostSSHConfig !! address = None ->
    NewHost' (render_host user ("[" +:+ address +:+ "]") (Some port))
    = (u ← user_or_current user_Current user;
       Ok (mkHost address port u "" "" "")).
Proof.
  intros user address port Hu Hl Hr Hsl Hat Hp Hn Hnone.
  pose proof (plain_spec _ Hp) as (Hpat & Hpsl & _).
  unfold render_host in *.
  rewrite NewHost_split; [|done| |done].
  - rewrite !str_mem_app. simpl str_mem. rewrite Hsl, Hpsl. simpl orb.
    rewrite !orb_true_r. cbv iota.
    rewrite SplitHostPort_bracketed by done.
    destruct (user_or_current user_Current user); simpl; try done.
    by rewrite Hnone.
  - rewrite !str_mem_app. simpl str_mem. by rewrite Hat, Hpat.
Qed.

(** X12.  For a string [user@host:port] without an SSH-config entry, the
    log prefix of the parsed host is the string itself followed by
    [" | "], [GetHost] is [host:port] and [GetHostname] is the host. *)
Theorem NewHost_display_round_trip :
  forall (user host port : string),
    user <> "" -> plain host = true -> plain port = true ->
    has_scheme (render_host (Some user) host (Some port)) = false ->
    extractedHostSSHConfig !! host = None ->
    exists h,
      NewHost' (render_host (Some user) host (Some port)) = Ok h
      /\ GetPrefixText h = render_host (Some user) host (Some port) +:+ " | "
      /\ GetHost h = host +:+ ":" +:+ port
      /\ GetHostname h = host.
Proof.
  intros user host port Hu Hh Hp Hn Hnone.
  exists (mkHost host port user "" "" "").
  rewrite NewHost_plain_lookup by (done || congruence). rewrite Hnone.
  split; [done|]. split; [|done].
  unfold GetPrefixText, render_host. simpl.
  by rewrite !str_app_assoc.
Qed.

End NewHostForms.

(** ** [Network.UnmarshalYAML] *)

Lemma append_hosts_all (NewHost : string -> result Host)
    (items : list string) (new : list Host) :
  Forall2 (fun item host => NewHost item = Ok host) items new ->
  forall hosts, append_hosts NewHost items hosts = Ok (hosts ++ new)%list.
Proof.
  induction 1 as [|item host items new Hhost _ IH]; intros hosts; simpl.
  { by rewrite app_nil_r. }
  rewrite Hhost. simpl. rewrite IH. by rewrite <- app_assoc.
Qed.

Lemma append_hosts_Ok (NewHost : string -> result Host)
    (items : list string) :
  forall hosts result,
    append_hosts NewHost items hosts = Ok result ->
    exists new,
      Forall2 (fun item host => NewHost item = Ok host) items new
      /\ result = (hosts ++ new)%list.
Proof.
  induction items as [|item items IH]; intros hosts result; simpl.
  { intros [= <-]. exists []. split; [constructor|by rewrite app_nil_r]. }
  destruct (NewHost item) as [host| |] eqn:Hhost; simpl; [|done..].
  intros (new & Hnew & ->)%IH. exists (host :: new).
  split; [by constructor|by rewrite <- app_assoc].
Qed.

Lemma append_hosts_first_error (NewHost : string -> result Host)
    (pre post : list string) (bad : string) (parsed : list Host) (e : error) :
  Forall2 (fun item host => NewHost item = Ok host) pre parsed ->
  NewHost bad = Err e ->
  forall hosts, append_hosts NewHost (pre ++ bad :: post) hosts = Err e.
Proof.
  intros Hpre Hbad.
  induction Hpre as [|item host pre parsed Hhost _ IH]; intros hosts; simpl.
  - by rewrite Hbad.
  - rewrite Hhost. simpl. apply IH.
Qed.

Section NetworkDecoding.

Variable node : Type.
Variable unmarshal_NewNetwork : node -> result Network.
Variable NewHost : string -> result Host.

(** X13.  [Network.UnmarshalYAML] succeeds exactly when every declared
    host string parses; its hosts are then the hosts the decoder left,
    followed by the parsed strings in the order of their declaration,
    and nothing else of the network changes.  The first string that
    fails to parse makes the whole network fail with its error. *)
Theorem Network_UnmarshalYAML_hosts_in_order :
  forall (y : node) (n : Network),
    unmarshal_NewNetwork y = Ok n ->
    (forall n',
        Network_UnmarshalYAML node unmarshal_NewNetwork NewHost y = Ok n' <->
        exists new,
          Forall2 (fun item host => NewHost item = Ok host)
            (HostsFromConfig n) new
          /\ n' = set_Hosts n (Hosts n ++ new)%list)
    /\ (forall pre bad post parsed e,
          HostsFromConfig n = (pre ++ bad :: post)%list ->
          Forall2 (fun item host => NewHost item = Ok host) pre parsed ->
          NewHost bad = Err e ->
          Network_UnmarshalYAML node unmarshal_NewNetwork NewHost y = Err e).
Proof.
  intros y n Hy. unfold Network_UnmarshalYAML. rewrite Hy. simpl. split.
  - intros n'. split.
    + destruct (append_hosts NewHost (HostsFromConfig n) (Hosts n))
        as [hosts| |] eqn:Happ; simpl; [|done..].
      intros [= <-]. apply append_hosts_Ok in Happ as (new & Hnew & ->).
      by exists new.
    + intros (new & Hnew & ->). by rewrite (append_hosts_all _ _ _ Hnew).
  - intros pre bad post parsed e -> Hpre Hbad.
    by rewrite (append_hosts_first_error _ _ _ _ _ _ Hpre Hbad).
Qed.

End NetworkDecoding.

(** ** [Networks.Set] and [Networks.Get] *)


(** ** The inventory output, whatever it is *)

Lemma output_lines (output : string) :
  exists lines tail,
    output = terminated lines +:+ tail
    /\ Forall (fun l => str_mem "010" l = false) lines
    /\ str_mem "010" tail = false
    /\ length lines = count_byte "010" output.
Proof.
  induction output as [|a s (lines & tail & -> & Hlines & Htail & Hlen)].
  { exists [], "". by repeat split. }
  simpl count_byte. destruct (Ascii.eqb_spec a "010") as [->|Hne].
  - exists ("" :: lines), tail. split; [done|]. split; [by constructor|].
    split; [done|]. simpl. by rewrite Hlen.
  - destruct lines as [|l lines].
    + exists [], (String a tail). split; [done|]. split; [done|].
      split; [|done]. simpl. rewrite Htail.
      by apply Ascii.eqb_neq in Hne as ->.
    + exists (String a l :: lines), tail. split; [done|].
      apply Forall_cons in Hlines as [Hl Hlines]. split; [|by split].
      constructor; [|done]. simpl. rewrite Hl.
      by apply Ascii.eqb_neq in Hne as ->.
Qed.

Lemma str_mem_rev_append (c : ascii) (s acc : string) :
  str_mem c (str_rev_append s acc) = str_mem c s || str_mem c acc.
Proof.
  revert acc. induction s as [|a s IH]; intros acc; simpl; [done|].
  rewrite IH. simpl.
  by destruct (Ascii.eqb a c), (str_mem c s), (str_mem c acc).
Qed.

Lemma str_mem_rev (c : ascii) (s : string) :
  str_mem c (str_rev s) = str_mem c s.
Proof. unfold str_rev. rewrite str_mem_rev_append. simpl. apply orb_false_r. Qed.

Lemma TrimLeftSpace_mem_bounded (c : ascii) (n : nat) (s : string) :
  String.length s <= n ->
  str_mem c (TrimLeftSpace s) = true -> str_mem c s = true.
Proof.
  revert s. induction n as [|n IH]; intros s Hn.
  { destruct s; [done|simpl in Hn; lia]. }
  destruct s as [|a s1]; [done|]. simpl in Hn. rewrite TrimLeftSpace_cons.
  assert (forall t, String.length t <= n ->
            str_mem c (TrimLeftSpace t) = true -> str_mem c t = true) as IH'
    by (intros; by apply IH).
  destruct (asciiSpace a).
  { intros H. simpl. rewrite (IH' s1) by (done || lia). apply orb_true_r. }
  destruct s1 as [|b s2]; [done|]. simpl in Hn.
  destruct (space2 a b).
  { intros H. simpl. rewrite (IH' s2) by (done || lia). by rewrite !orb_true_r. }
  destruct s2 as [|d s3]; [done|]. simpl in Hn.
  destruct (space3 a b d); [|done].
  intros H. simpl. rewrite (IH' s3) by (done || lia). by rewrite !orb_true_r.
Qed.

Lemma TrimLeftSpace_rev_mem_bounded (c : ascii) (n : nat) (s : string) :
  String.length s <= n ->
  str_mem c (TrimLeftSpace_rev s) = true -> str_mem c s = true.
Proof.
  revert s. induction n as [|n IH]; intros s Hn.
  { destruct s; [done|simpl in Hn; lia]. }
  destruct s as [|a s1]; [done|]. simpl in Hn.
  assert (forall t, String.length t <= n ->
            str_mem c (TrimLeftSpace_rev t) = true -> str_mem c t = true) as IH'
    by (intros; by apply IH).
  change (TrimLeftSpace_rev (String a s1))
    with (if asciiSpace a then TrimLeftSpace_rev s1
          else match s1 with
               | EmptyString => String a s1
               | String b r2 =>
                   if space2 b a then TrimLeftSpace_rev r2
                   else match r2 with
                        | EmptyString => String a s1
                        | String d r3 =>
                            if space3 d b a then TrimLeftSpace_rev r3
                            else String a s1
                        end
               end).
  destruct (asciiSpace a).
  { intros H. simpl. rewrite (IH' s1) by (done || lia). apply orb_true_r. }
  destruct s1 as [|b s2]; [done|]. simpl in Hn.
  destruct (space2 b a).
  { intros H. simpl. rewrite (IH' s2) by (done || lia). by rewrite !orb_true_r. }
  destruct s2 as [|d s3]; [done|]. simpl in Hn.
  destruct (space3 d b a); [|done].
  intros H. simpl. rewrite (IH' s3) by (done || lia). by rewrite !orb_true_r.
Qed.

(** [strings.TrimSpace] adds no byte. *)
Lemma TrimSpace_mem (c : ascii) (s : string) :
  str_mem c s = false -> str_mem c (strings_TrimSpace s) = false.
Proof.
  intros Hs. destruct (str_mem c (strings_TrimSpace s)) eqn:H; [|done].
  unfold strings_TrimSpace, TrimRightSpace in H. rewrite str_mem_rev in H.
  apply (TrimLeftSpace_rev_mem_bounded c _ _ (le_n _)) in H.
  rewrite str_mem_rev in H.
  apply (TrimLeftSpace_mem_bounded c _ _ (le_n _)) in H. congruence.
Qed.

(** X15.  On every output the loop of [ParseInventory] ends within its
    bound and returns hosts.  Each host carries an address and nothing
    else; the address is not empty, does not start with [#] and holds
    no newline byte; and there are at most as many hosts as newline
    bytes in the output. *)
Theorem parse_output_hosts_well_formed :
  forall output : string,
    exists hosts,
      parse_output output = Ok hosts
      /\ Forall (fun h => h = Host_of_address (Address h)
                          /\ Address h <> ""
                          /\ skipped (Address h) = false
                          /\ str_mem "010" (Address h) = false) hosts
      /\ length hosts <= count_byte "010" output.
Proof.
  intros output.
  destruct (output_lines output) as (lines & tail & -> & Hlines & Htail & Hlen).
  exists (hosts_of_lines lines).
  split; [by apply parse_output_lines|]. split.
  - unfold hosts_of_lines. apply Forall_fmap, Forall_forall.
    intros t Ht%list_elem_of_In. apply filter_In in Ht as [Ht Hkeep].
    apply list_elem_of_In in Ht. simpl.
    apply negb_true_iff in Hkeep. split; [done|]. split; [|split; [done|]].
    + by intros ->.
    + apply list_elem_of_fmap in Ht as (l & -> & Hl).
      apply TrimSpace_mem. rewrite Forall_forall in Hlines. by apply Hlines.
  - rewrite <- Hlen. unfold hosts_of_lines.
    rewrite length_fmap. etrans; [apply List.filter_length_le|].
    by rewrite length_fmap.
Qed.

(** ** More on the version switch *)

Lemma range_run_once_some (v : string) (m : gmap string Command)
    (keys : list string) (key : string) (cmd : Command) :
  key ∈ keys -> m !! key = Some cmd -> RunOnce cmd = true ->
  range_run_once v m keys
  = Some (ErrMustUpdate ("command.run_once is not supported in Supfile v" +:+ v)).
Proof.
  intros Hin Hk Hro. induction Hin as [key keys|key key' keys _ IH]; simpl.
  - by rewrite Hk, Hro.
  - destruct (m !! key') as [cmd'|]; [|by apply IH].
    destruct (RunOnce cmd'); [done|by apply IH].
Qed.

Lemma switch_Version_new
    (range_order : forall V : Type, nat -> gmap string V -> list string)
    (conf : Supfile) :
  Version conf ∉ [""; "0.1"; "0.2"; "0.3"] ->
  (Version conf ∈ ["0.4"; "0.5"]
   /\ switch_Version range_order conf = (Ok conf, []))
  \/ (exists msg,
         switch_Version range_order conf
         = (Err (ErrUnsupportedSupfileVersion msg), [])).
Proof.
  intros Hv. unfold switch_Version.
  destruct (String.eqb_spec (Version conf) "") as [He|_];
    [exfalso; apply Hv; rewrite He; list_elem_solver|].
  destruct (String.eqb_spec (Version conf) "0.1") as [He|_];
    [exfalso; apply Hv; rewrite He; list_elem_solver|].
  destruct (String.eqb_spec (Version conf) "0.2") as [He|_];
    [exfalso; apply Hv; rewrite He; list_elem_solver|].
  destruct (String.eqb_spec (Version conf) "0.3") as [He|_];
    [exfalso; apply Hv; rewrite He; list_elem_solver|].
  destruct (String.eqb_spec (Version conf) "0.4") as [He|_]; simpl.
  { left. split; [rewrite He; list_elem_solver|done]. }
  destruct (String.eqb_spec (Version conf) "0.5") as [He|_]; simpl.
  { left. split; [rewrite He; list_elem_solver|done]. }
  right. eauto.
Qed.

Section VersionGateMore.

Variable range_order : forall V : Type, nat -> gmap string V -> list string.
Variable yaml_Unmarshal : string -> result Supfile.

Hypothesis range_visits_keys :
  forall (V : Type) (n : nat) (m : gmap string V),
    range_order V n m ≡ₚ (map_to_list m).*1.

(** X16.  Under version 0.1, declared or by default, a document with a
    command that sets the deprecated run-once flag is rejected, and the
    error is the same whatever else the document holds and in whatever
    order the commands are visited: [ErrMustUpdate] with the message
    "command.run_once is not supported in Supfile v0.1". *)
Theorem NewSupfile_rejects_run_once_at_0_1 :
  forall (data : string) (conf : Supfile) (key : string) (cmd : Command),
    yaml_Unmarshal data = Ok conf ->
    Version conf ∈ [""; "0.1"] ->
    cmds (sup_Commands conf) !! key = Some cmd ->
    RunOnce cmd = true ->
    NewSupfile range_order yaml_Unmarshal data
    = (Err (ErrMustUpdate "command.run_once is not supported in Supfile v0.1"),
       []).
Proof.
  intros data conf key cmd Hy Hv Hk Hro. unfold NewSupfile. rewrite Hy.
  assert (forall c : Supfile,
             Version c = "0.1" ->
             cmds (sup_Commands c) = cmds (sup_Commands conf) ->
             case_0_1 range_order c
             = (Err (ErrMustUpdate
                       "command.run_once is not supported in Supfile v0.1"), []))
    as Hcase.
  { intros c Hc Hm. unfold case_0_1.
    rewrite (range_run_once_some _ _ _ key cmd); [by rewrite Hc| |by rewrite Hm|done].
    eapply (range_order_elem range_order range_visits_keys). by rewrite Hm. }
  unfold switch_Version.
  repeat (apply elem_of_cons in Hv as [Hv|Hv]); [| |by apply elem_of_nil in Hv];
    rewrite Hv; simpl.
  - by apply Hcase.
  - by apply Hcase.
Qed.

(** X17.  A document that [NewSupfile] accepts is returned with its
    networks, targets, environment and command names as decoded, and
    with its declared version (0.1 for an absent one).  No command is
    added or removed, and a command is either unchanged or had the
    deprecated run-once flag and differs only by [Once] being set. *)
Theorem NewSupfile_changes_only_Once :
  forall (data : string) (conf conf' : Supfile) (written : list string),
    yaml_Unmarshal data = Ok conf ->
    NewSupfile range_order yaml_Unmarshal data = (Ok conf', written) ->
    sup_Networks conf' = sup_Networks conf
    /\ sup_Targets conf' = sup_Targets conf
    /\ sup_Env conf' = sup_Env conf
    /\ cmd_Names (sup_Commands conf') = cmd_Names (sup_Commands conf)
    /\ Version conf' = declared_version conf
    /\ Version conf' ∈ ["0.1"; "0.2"; "0.3"; "0.4"; "0.5"]
    /\ forall key,
         option_Forall2
           (fun cmd cmd' =>
              cmd' = cmd \/ (RunOnce cmd = true /\ cmd' = set_Once cmd true))
           (cmds (sup_Commands conf) !! key)
           (cmds (sup_Commands conf') !! key).
Proof.
  intros data conf conf' written Hy Hnew. unfold NewSupfile in Hnew.
  rewrite Hy in Hnew.
  destruct (decide (Version conf ∈ [""; "0.1"; "0.2"; "0.3"])) as [Hv|Hv].
  - destruct (switch_Version_old range_order conf Hv) as [[msg H]|H];
      [congruence|].
    rewrite H in Hnew.
    destruct (case_0_3_spec range_order range_visits_keys
                (with_default_version conf)) as (w & Hw & _).
    rewrite Hw in Hnew. injection Hnew as <- _. simpl.
    split; [done|]. split; [done|]. split; [done|]. split; [done|].
    split; [done|]. split.
    + unfold declared_version.
      repeat (apply elem_of_cons in Hv as [Hv|Hv]);
        [| | | |by apply elem_of_nil in Hv]; rewrite Hv; simpl;
        list_elem_solver.
    + intros key. rewrite lookup_fmap.
      destruct (cmds (sup_Commands conf) !! key) as [cmd|]; constructor.
      unfold migrate. destruct (RunOnce cmd); [by right|by left].
  - destruct (switch_Version_new range_order conf Hv) as [[Hin H]|[msg H]];
      rewrite H in Hnew; [|discriminate Hnew].
    injection Hnew as <- _.
    split; [done|]. split; [done|]. split; [done|]. split; [done|].
    assert (declared_version conf = Version conf) as ->.
    { unfold declared_version.
      destruct (String.eqb_spec (Version conf) "") as [He|_]; [|done].
      exfalso. apply Hv. rewrite He. list_elem_solver. }
    split; [done|]. split; [list_elem_solver|].
    intros key. destruct (cmds (sup_Commands conf) !! key); constructor.
    by left.
Qed.

(** X18.  [NewSupfile] writes to the standard error stream only when it
    accepts a document of version at most 0.3 in which some command has
    the deprecated run-once flag, and then it writes the one deprecation
    warning; in every other case, errors included, it writes nothing. *)
Theorem NewSupfile_writes_only_the_deprecation_warning :
  forall (data : string) (r : result Supfile) (written : list string),
    NewSupfile range_order yaml_Unmarshal data = (r, written) ->
    written = []
    \/ exists conf conf',
         yaml_Unmarshal data = Ok conf /\ r = Ok conf'
         /\ Version conf ∈ [""; "0.1"; "0.2"; "0.3"]
         /\ written = [deprecation_warning (declared_version conf) +:+ newline]
         /\ exists key cmd,
              cmds (sup_Commands conf) !! key = Some cmd /\ RunOnce cmd = true.
Proof.
  intros data r written Hnew. unfold NewSupfile in Hnew.
  destruct (yaml_Unmarshal data) as [conf| |] eqn:Hy;
    [|left; congruence..].
  destruct (decide (Version conf ∈ [""; "0.1"; "0.2"; "0.3"])) as [Hv|Hv].
  - destruct (switch_Version_old range_order conf Hv) as [[msg H]|H].
    { left. congruence. }
    rewrite H in Hnew.
    destruct (case_0_3_spec range_order range_visits_keys
                (with_default_version conf)) as (w & Hw & Hnone & Hsome).
    rewrite Hw in Hnew. injection Hnew as <- <-. simpl in Hnone, Hsome.
    destruct (decide (map_Forall (fun _ cmd => RunOnce cmd = false)
                        (cmds (sup_Commands conf)))) as [Hall|Hex].
    { left. by apply Hnone. }
    right. apply map_not_Forall in Hex as (key & cmd & Hk & Hro);
      [|apply _].
    apply not_false_is_true in Hro.
    eexists conf, _. split; [done|]. split; [done|]. split; [done|].
    split; [|by exists key, cmd]. apply Hsome. by exists key, cmd.
  - left.
    destruct (switch_Version_new range_order conf Hv) as [[_ H]|[msg H]];
      congruence.
Qed.

End VersionGateMore.

(** ** Keys that are no strings *)

Lemma item_names_panics (items : list MapItem) (item : MapItem) (text : string) :
  item ∈ items -> item_Key item = IOther text ->
  item_names items
  = Panic "interface conversion: interface {} is not string".
Proof.
  intros Hin Hkey. induction Hin as [item items|item item' items _ IH]; simpl.
  - by rewrite Hkey.
  - destruct (item_Key item') as [s|text']; simpl; [|done].
    by rewrite IH.
Qed.

Section CollectionsEdges.

Variable node : Type.
Variable unmarshal_MapSlice : node -> result (list MapItem).
Variable unmarshal_nets : node -> result (gmap string Network).
Variable unmarshal_cmds : node -> result (gmap string Command).
Variable unmarshal_targets : node -> result (gmap string (list string)).

(** X19.  The decoders of the three collections return the error of the
    map decoding before they look at the order of the keys; and when
    both decodings succeed but a declared key is not a string, they
    panic on the type assertion instead of returning an error. *)
Theorem collections_panic_on_non_string_key :
  forall y : node,
    (forall e,
        unmarshal_nets y = Err e ->
        Networks_UnmarshalYAML node unmarshal_MapSlice unmarshal_nets y = Err e)
    /\ (forall e,
          unmarshal_cmds y = Err e ->
          Commands_UnmarshalYAML node unmarshal_MapSlice unmarshal_cmds y = Err e)
    /\ (forall e,
          unmarshal_targets y = Err e ->
          Targets_UnmarshalYAML node unmarshal_MapSlice unmarshal_targets y = Err e)
    /\ (forall items item text,
          unmarshal_MapSlice y = Ok items ->
          item ∈ items -> item_Key item = IOther text ->
          (forall m, unmarshal_nets y = Ok m ->
             Networks_UnmarshalYAML node unmarshal_MapSlice unmarshal_nets y
             = Panic "interface conversion: interface {} is not string")
          /\ (forall m, unmarshal_cmds y = Ok m ->
                Commands_UnmarshalYAML node unmarshal_MapSlice unmarshal_cmds y
                = Panic "interface conversion: interface {} is not string")
          /\ (forall m, unmarshal_targets y = Ok m ->
                Targets_UnmarshalYAML node unmarshal_MapSlice unmarshal_targets y
                = Panic "interface conversion: interface {} is not string")).
Proof.
  intros y. unfold Networks_UnmarshalYAML, Commands_UnmarshalYAML,
    Targets_UnmarshalYAML.
  split; [by intros e ->|]. split; [by intros e ->|]. split; [by intros e ->|].
  intros items item text -> Hin Hkey.
  pose proof (item_names_panics items item text Hin Hkey) as Hpanic.
  split; [|split]; intros m ->; simpl; by rewrite Hpanic.
Qed.

End CollectionsEdges.

(** ** The empty user *)

Lemma split_user_none (s : string) :
  str_mem "@" s = false -> split_user s = ("", s).
Proof.
  intros Hs. destruct (split_user_spec s) as [[H _]|(u & r & -> & _ & _)];
    [done|].
  rewrite str_mem_app in Hs. simpl in Hs. by rewrite orb_true_r in Hs.
Qed.

Lemma split_user_empty (rest : string) :
  str_mem "@" rest = false -> split_user ("@" +:+ rest) = ("", rest).
Proof.
  intros Hr. unfold split_user, strings_LastIndex. rewrite LastIndex_byte.
  change ("@" +:+ rest) with ("" +:+ String "@" rest).
  rewrite LastIndexByte_last by done.
  change (0 + len "")%Z with 0%Z. simpl negb. cbv iota.
  change (0 + 1)%Z with (len "" + 1)%Z.
  rewrite (slice_from_app_cons "@" "" rest). reflexivity.
Qed.

(** X21.  An empty user before the ["@"] counts as no user: ["@host"]
    parses as ["host"], with the OS user. *)
Theorem NewHost_empty_user :
  forall (user_Current : result string) (table : gmap string SSHConfigEntry)
         (ResolvePath : string -> string) (rest : string),
    str_mem "@" rest = false -> has_scheme rest = false ->
    NewHost user_Current table ResolvePath ("@" +:+ rest)
    = NewHost user_Current table ResolvePath rest.
Proof.
  intros user_Current table ResolvePath rest Hat Hn.
  rewrite !NewHost_stages.
  assert (strip_scheme ("@" +:+ rest) = "@" +:+ rest) as ->.
  { unfold strip_scheme. rewrite app_cons, app_nil_l.
    unfold slice_to, slice. simpl. by rewrite andb_false_r. }
  assert (strip_scheme rest = rest) as ->.
  { unfold strip_scheme. fold (has_scheme rest). by rewrite Hn. }
  by rewrite split_user_empty, split_user_none.
Qed.

(** ** [ParseInventory] around the command *)

Lemma EnvList_Slice_points_to (h : store) (e : EnvList) (raw : list EnvVar) :
  points_to h e raw -> EnvList_Slice h e = Ok (EnvVar_String <$> raw).
Proof.
  induction 1 as [|p v e raw Hp _ IH]; simpl; [done|].
  unfold load. rewrite Hp. simpl. by rewrite IH.
Qed.

Lemma EnvList_Slice_nil_pointer (h : store) (e : EnvList) (p : loc) :
  p ∈ e -> h !! p = None -> EnvList_Slice h e = nil_deref.
Proof.
  intros Hin Hp. induction Hin as [p e|p q e _ IH]; simpl; unfold load.
  - by rewrite Hp.
  - destruct (h !! q); simpl; [|done]. by rewrite IH.
Qed.

Section InventoryEdges.

Variable os_Environ : list string.
Variable sh_c : list string -> string -> result string.

(** X20.  Without an inventory command [ParseInventory] returns no host
    and no error, and looks neither at the environment chain nor at the
    shell.  With one, the command runs with the environment of the
    process followed by the [KEY=VALUE] of the chain in order; its error
    is returned as it is; its output is parsed; and a nil pointer in the
    chain panics before the command is run. *)
Theorem ParseInventory_around_the_command :
  (forall (h : store) (n : Network),
      Inventory n = "" -> ParseInventory os_Environ sh_c h n = Ok [])
  /\ (forall (h : store) (n : Network) (raw : list EnvVar),
        Inventory n <> "" -> points_to h (net_Env n) raw ->
        ParseInventory os_Environ sh_c h n
        = match sh_c (os_Environ ++ (EnvVar_String <$> raw))%list (Inventory n) with
          | Ok output => parse_output output
          | Err e => Err e
          | Panic msg => Panic msg
          end)
  /\ (forall (h : store) (n : Network) (p : loc),
        Inventory n <> "" -> p ∈ net_Env n -> h !! p = None ->
        ParseInventory os_Environ sh_c h n = nil_deref).
Proof.
  unfold ParseInventory. split; [|split].
  - intros h n ->. done.
  - intros h n raw Hinv Hpt.
    destruct (String.eqb_spec (Inventory n) ""); [done|].
    rewrite (EnvList_Slice_points_to _ _ _ Hpt). simpl.
    by destruct (sh_c _ _).
  - intros h n p Hinv Hin Hp.
    destruct (String.eqb_spec (Inventory n) ""); [done|].
    by rewrite (EnvList_Slice_nil_pointer _ _ _ Hin Hp).
Qed.

End InventoryEdges.

(** ** The further properties at sample inputs *)

Ltac sample_chain_facts :=
  first
    [ solve [ unfold sample_chain; repeat constructor;
              rewrite ?elem_of_cons, ?elem_of_nil; intuition discriminate ]
    | solve [ unfold points_to, sample_chain, sample_raw; by repeat constructor ] ].


Lemma EnvList_Set_keeps_keys_unique_witness :
  (NoDup sample_chain /\ points_to sample_store sample_chain sample_raw
   /\ NoDup (Key <$> sample_raw))
  /\ exists e' h' raw',
       EnvList_Set "PORT" "8080" (sample_chain, sample_store) = Ok (e', h')
       /\ points_to h' e' raw'
       /\ NoDup (Key <$> raw')
       /\ mkEnvVar "PORT" "8080" ∈ raw'.
Proof.
  assert (NoDup sample_chain) as Hnd by sample_chain_facts.
  assert (points_to sample_store sample_chain sample_raw) as Hpt
    by sample_chain_facts.
  assert (NoDup (Key <$> sample_raw)) as Hkeys.
  { unfold sample_raw. simpl. repeat constructor;
      rewrite ?elem_of_cons, ?elem_of_nil; intuition discriminate. }
  split; [by repeat split|].
  destruct (EnvList_Set_keeps_keys_unique "PORT" "8080" sample_chain
              sample_store sample_raw Hnd Hpt Hkeys)
    as (e' & h' & raw' & Hset & _ & Hpt' & Hkeys' & Hin & _).
  by exists e', h', raw'.
Defined.


Lemma EnvList_UnmarshalYAML_unique_keys_witness :
  (@Ok (list MapItem)) sample_env_items = Ok sample_env_items
  /\ exists e h',
       EnvList_UnmarshalYAML (list MapItem) Ok ∅ sample_env_items = Ok (e, h')
       /\ points_to h' e (env_of_items sample_env_items)
       /\ env_of_items sample_env_items
          = [mkEnvVar "FOO" "baz"; mkEnvVar "PORT" "8080"].
Proof.
  split; [reflexivity|].
  destruct (EnvList_UnmarshalYAML_unique_keys (list MapItem) Ok
              sample_env_items sample_env_items ∅ eq_refl)
    as (e & h' & Hy & _ & Hpt & _).
  exists e, h'. split; [done|]. split; [done|]. reflexivity.
Defined.

Lemma ResolveValues_changes_values_only_witness :
  sample_store !! 2 = Some (mkEnvVar "BAZ" "$FOO-baz")
  /\ exists v',
       store_after (ResolveValues (fun _ => Ok "/srv") failing_bash
                      sample_chain sample_store) !! 2 = Some v'
       /\ Key v' = "BAZ".
Proof.
  split; [reflexivity|].
  apply (proj1 (ResolveValues_changes_values_only (fun _ => Ok "/srv")
                  failing_bash sample_chain sample_store)
           2 (mkEnvVar "BAZ" "$FOO-baz")).
  reflexivity.
Defined.

Lemma ResolveValues_Getwd_failure_witness :
  (NoDup sample_chain /\ points_to sample_store sample_chain sample_raw
   /\ sample_raw !! 0 = Some (mkEnvVar "FOO" "bar")
   /\ (fun _ : nat => @Err string (OSError "getwd: no such file or directory")) 0
      = Err (OSError "getwd: no such file or directory"))
  /\ returned (ResolveValues
                 (fun _ => Err (OSError "getwd: no such file or directory"))
                 sample_bash sample_chain sample_store)
     = Err (OSError "getwd: no such file or directory")
  /\ scripts_run (ResolveValues
                    (fun _ => Err (OSError "getwd: no such file or directory"))
                    sample_bash sample_chain sample_store) = [].
Proof.
  assert (NoDup sample_chain) as Hnd by sample_chain_facts.
  assert (points_to sample_store sample_chain sample_raw) as Hpt
    by sample_chain_facts.
  split; [by repeat split|].
  destruct (ResolveValues_Getwd_failure
              (fun _ => Err (OSError "getwd: no such file or directory"))
              sample_bash sample_chain sample_store sample_raw (fun _ => "")
              0 (mkEnvVar "FOO" "bar")
              (OSError "getwd: no such file or directory")
              Hnd Hpt eq_refl)
    as (Hret & Hran & _).
  - intros i vi Hi. lia.
  - reflexivity.
  - by split.
Defined.

Lemma NewHost_result_shape_witness :
  NewHost (Ok "alice") ∅ id "deploy@10.0.0.5:2200"
  = Ok (mkHost "10.0.0.5" "2200" "deploy" "" "" "")
  /\ str_mem "/" "10.0.0.5" = false /\ str_mem ":" "2200" = false.
Proof.
  assert (NewHost (Ok "alice") ∅ id "deploy@10.0.0.5:2200"
          = Ok (mkHost "10.0.0.5" "2200" "deploy" "" "" "")) as Hnew
    by reflexivity.
  split; [exact Hnew|].
  destruct (NewHost_result_shape (Ok "alice") ∅ id _ _ Hnew)
    as [(address & conf & known & aliases & Hconf & _)|
        (_ & Hslash & _ & _ & _ & Hcolon & _)].
  - by rewrite lookup_empty in Hconf.
  - by split.
Defined.

Lemma NewHost_needs_OS_user_only_without_inline_user_witness :
  str_mem "@" "10.0.0.5:22" = false
  /\ NewHost (Err (OSError "user: unknown userid 1000")) ∅ id "10.0.0.5:22"
     = Err (OSError "user: unknown userid 1000").
Proof.
  split; [reflexivity|].
  apply (proj1 (NewHost_needs_OS_user_only_without_inline_user
                  (Ok "alice") ∅ id)).
  reflexivity.
Defined.

Lemma NewHost_SSH_config_overrides_witness :
  (Some "root" <> Some "" /\ plain "web" = true
   /\ from_option plain true (Some "22") = true
   /\ has_scheme (render_host (Some "root") "web" (Some "22")) = false
   /\ sample_ssh_table !! "web" = Some sample_ssh_entry
   /\ ssh_Host sample_ssh_entry = ["web"; "web.internal"])
  /\ NewHost (Ok "alice") sample_ssh_table id
       (render_host (Some "root") "web" (Some "22"))
     = Ok (mkHost "10.1.2.3" "2222" "deploy" "~/.ssh/id_web" "web" "jump").
Proof.
  split; [by repeat split|].
  apply (proj1 (proj1 (NewHost_SSH_config_overrides (Ok "alice")
                         sample_ssh_table id (Some "root") "web" (Some "22")
                         sample_ssh_entry ltac:(discriminate) eq_refl eq_refl
                         eq_refl eq_refl)
                  "web" ["web.internal"] eq_refl)).
Defined.

Lemma NewHost_too_many_colons_witness :
  (Some "root" <> Some "" /\ plain "example.com" = true /\ plain "22" = true
   /\ plain "80" = true
   /\ has_scheme (render_host (Some "root") ("example.com" +:+ ":" +:+ "22")
                    (Some "80")) = false)
  /\ NewHost (Ok "alice") ∅ id "root@example.com:22:80"
     = Err (AddrError "too many colons in address" "example.com:22:80").
Proof.
  split; [by repeat split|].
  apply (NewHost_too_many_colons (Ok "alice") ∅ id (Some "root")
           "example.com" "22" "80" ltac:(discriminate) eq_refl eq_refl
           eq_refl eq_refl).
Defined.

Lemma NewHost_bracketed_address_witness :
  (str_mem "[" "::1" = false /\ str_mem "]" "::1" = false
   /\ str_mem "/" "::1" = false /\ str_mem "@" "::1" = false
   /\ plain "2222" = true
   /\ (∅ : gmap string SSHConfigEntry) !! "::1" = None)
  /\ NewHost (Ok "alice") ∅ id "root@[::1]:2222"
     = Ok (mkHost "::1" "2222" "root" "" "" "").
Proof.
  split; [by repeat split|].
  apply (NewHost_bracketed_address (Ok "alice") ∅ id (Some "root")
           "::1" "2222" ltac:(discriminate) eq_refl eq_refl eq_refl eq_refl
           eq_refl eq_refl eq_refl).
Defined.

Lemma NewHost_display_round_trip_witness :
  ("deploy" <> "" /\ plain "10.0.0.5" = true /\ plain "2200" = true
   /\ (∅ : gmap string SSHConfigEntry) !! "10.0.0.5" = None)
  /\ exists h,
       NewHost (Ok "alice") ∅ id "deploy@10.0.0.5:2200" = Ok h
       /\ GetPrefixText h = "deploy@10.0.0.5:2200 | ".
Proof.
  split; [by repeat split|].
  destruct (NewHost_display_round_trip (Ok "alice") ∅ id
              "deploy" "10.0.0.5" "2200" ltac:(discriminate) eq_refl eq_refl
              eq_refl eq_refl)
    as (h & Hnew & Hprefix & _).
  by exists h.
Defined.

Lemma Network_UnmarshalYAML_hosts_in_order_witness :
  (@Ok Network) sample_decoded_network = Ok sample_decoded_network
  /\ Forall2 (fun item host => sample_parser item = Ok host)
       ["web1"; "web2"]
       [mkHost "web1" "22" "alice" "" "" ""; mkHost "web2" "22" "alice" "" "" ""]
  /\ Network_UnmarshalYAML Network Ok sample_parser sample_decoded_network
     = Ok (set_Hosts sample_decoded_network
             [mkHost "web1" "22" "alice" "" "" "";
              mkHost "web2" "22" "alice" "" "" ""]).
Proof.
  assert (Forall2 (fun item host => sample_parser item = Ok host)
            ["web1"; "web2"]
            [mkHost "web1" "22" "alice" "" "" "";
             mkHost "web2" "22" "alice" "" "" ""]) as Hall
    by (by repeat constructor).
  split; [reflexivity|]. split; [exact Hall|].
  apply (proj1 (Network_UnmarshalYAML_hosts_in_order Network Ok sample_parser
                  sample_decoded_network sample_decoded_network eq_refl)).
  by eexists.
Defined.


Lemma parse_output_hosts_well_formed_witness :
  exists hosts,
    parse_output ("host1" +:+ newline +:+ "# comment" +:+ newline +:+ "host2")
    = Ok hosts
    /\ length hosts <= 2.
Proof.
  destruct (parse_output_hosts_well_formed
              ("host1" +:+ newline +:+ "# comment" +:+ newline +:+ "host2"))
    as (hosts & Hparse & _ & Hlen).
  by exists hosts.
Defined.

Lemma NewSupfile_rejects_run_once_at_0_1_witness :
  (Version doc_0_1 ∈ [""; "0.1"]
   /\ cmds (sup_Commands doc_0_1) !! "deploy"
      = Some (sample_command "deploy" false true))
  /\ NewSupfile listed_order (fun _ => Ok doc_0_1) "data"
     = (Err (ErrMustUpdate "command.run_once is not supported in Supfile v0.1"),
        []).
Proof.
  assert (Version doc_0_1 ∈ [""; "0.1"]) as Hv by (repeat constructor).
  assert (cmds (sup_Commands doc_0_1) !! "deploy"
          = Some (sample_command "deploy" false true)) as Hk
    by (vm_compute; reflexivity).
  split; [by split|].
  apply (NewSupfile_rejects_run_once_at_0_1 listed_order (fun _ => Ok doc_0_1)
           listed_order_visits_keys "data" doc_0_1 "deploy"
           (sample_command "deploy" false true) eq_refl Hv Hk eq_refl).
Defined.

Lemma NewSupfile_changes_only_Once_witness :
  NewSupfile listed_order (fun _ => Ok doc_0_3) "data"
  = (Ok (sample_supfile "0.3" [sample_command "deploy" true true]),
     [deprecation_warning "0.3" +:+ newline])
  /\ cmd_Names (sup_Commands
                  (sample_supfile "0.3" [sample_command "deploy" true true]))
     = cmd_Names (sup_Commands doc_0_3).
Proof.
  assert (NewSupfile listed_order (fun _ => Ok doc_0_3) "data"
          = (Ok (sample_supfile "0.3" [sample_command "deploy" true true]),
             [deprecation_warning "0.3" +:+ newline])) as Hnew
    by (vm_compute; reflexivity).
  split; [exact Hnew|].
  apply (NewSupfile_changes_only_Once listed_order (fun _ => Ok doc_0_3)
           listed_order_visits_keys "data" doc_0_3 _ _ eq_refl Hnew).
Defined.

Lemma NewSupfile_writes_only_the_deprecation_warning_witness :
  NewSupfile listed_order (fun _ => Ok doc_0_2) "data"
  = (Err (ErrMustUpdate "command.once is not supported in Supfile v0.2"), [])
  /\ ([] : list string) = [].
Proof.
  assert (NewSupfile listed_order (fun _ => Ok doc_0_2) "data"
          = (Err (ErrMustUpdate "command.once is not supported in Supfile v0.2"),
             [])) as Hnew
    by (vm_compute; reflexivity).
  split; [exact Hnew|].
  destruct (NewSupfile_writes_only_the_deprecation_warning listed_order
              (fun _ => Ok doc_0_2) listed_order_visits_keys "data" _ _ Hnew)
    as [H|(conf & conf' & _ & Hr & _)]; [exact H|discriminate Hr].
Defined.

Lemma collections_panic_on_non_string_key_witness :
  ((@Ok (list MapItem)) sample_bad_items = Ok sample_bad_items
   /\ mkMapItem (IOther "8080") (IOther "map[]") ∈ sample_bad_items)
  /\ Commands_UnmarshalYAML (list MapItem) Ok (fun _ => Ok ∅) sample_bad_items
     = Panic "interface conversion: interface {} is not string".
Proof.
  assert (mkMapItem (IOther "8080") (IOther "map[]") ∈ sample_bad_items) as Hin
    by (unfold sample_bad_items; repeat constructor).
  split; [by split|].
  apply (proj1 (proj2 (proj2 (proj2 (proj2 (collections_panic_on_non_string_key
           (list MapItem) Ok (fun _ => Ok ∅) (fun _ => Ok ∅) (fun _ => Ok ∅)
           sample_bad_items)))
           sample_bad_items (mkMapItem (IOther "8080") (IOther "map[]")) "8080"
           eq_refl Hin eq_refl)) ∅ eq_refl).
Defined.

Lemma NewHost_empty_user_witness :
  (str_mem "@" "10.0.0.5" = false /\ has_scheme "10.0.0.5" = false)
  /\ NewHost (Ok "alice") ∅ id "@10.0.0.5"
     = NewHost (Ok "alice") ∅ id "10.0.0.5".
Proof.
  split; [by split|].
  apply (NewHost_empty_user (Ok "alice") ∅ id "10.0.0.5" eq_refl eq_refl).
Defined.

Lemma ParseInventory_around_the_command_witness :
  (Inventory sample_network <> "" /\ (1 : loc) ∈ [1]
   /\ (∅ : store) !! 1 = None)
  /\ ParseInventory [] (fun _ _ => Ok "host1")
       ∅ (mkNetwork [1] "cat hosts" [] [] "")
     = nil_deref.
Proof.
  assert ((1 : loc) ∈ [1]) as Hin by (by left).
  split; [by repeat split|].
  apply (proj2 (proj2 (ParseInventory_around_the_command []
                         (fun _ _ => Ok "host1")))
           ∅ (mkNetwork [1] "cat hosts" [] [] "") 1);
    [discriminate|exact Hin|reflexivity].
Defined.
